(** * Vendored libc headers: the hardware-probe helper and the stream contract

    The three headers under [lib/libc/include] are
    - [generic-freebsd/rpc/pmap_rmt.h]   (portmapper remote-call structures),
    - [generic-glibc/sys/hwprobe.h]      (RISC-V hardware probe interface),
    - [generic-glibc/stdio.h]            (the stdio declarations).

    [Headers] lists the functions the headers name, [Hwprobe] embeds the one
    function that has a body, and [StreamIO] models the buffered stream
    layer whose contract the specification describes. *)

From stdpp Require Import base tactics option list strings gmap.
From Stdlib Require Import ZArith Lia.
From Stdlib.Strings Require Import Byte.

Open Scope Z_scope.

(* ===================================================================== *)
(** ** The RISC-V hardware-probe helper ([sys/hwprobe.h]) *)
(* ===================================================================== *)

Module Hwprobe.

(** A 64-bit object is either indeterminate (declared, never assigned) or
    holds a number.  The local [pair] of the helper is written [pair_]
    below, [pair] being the name of the pairing constructor. *)
Inductive val : Type :=
| Vundef
| Vlong (n : Z).

(** [struct riscv_hwprobe { signed long long int key;
                            unsigned long long int value; }] *)
Record riscv_hwprobe : Type := {
  key : Z;
  value : val
}.

(** Locations of [unsigned long long int] objects in the caller's memory. *)
Definition addr : Type := Z.

(** The five arguments of a call through [__riscv_hwprobe_t].  [__pairs] is
    the object the first argument points to; [__cpus] is [None] for the
    null pointer. *)
Record hwprobe_args : Type := {
  __pairs : riscv_hwprobe;
  __pair_count : Z;
  __cpusetsize : Z;
  __cpus : option addr;
  __flags : Z
}.

Inductive event : Type :=
| EvCall (args : hwprobe_args)
| EvStore (p : addr) (v : val).

Section Helper.

(** [ENOSYS] and [ENOENT] come from [<errno.h>], which is not among the
    sources: they are parameters. *)
Variables ENOSYS ENOENT : Z.

(** Whatever state the probe function keeps to itself. *)
Variable K : Type.

(** [typedef int ( *__riscv_hwprobe_t) (struct riscv_hwprobe *__pairs, ...)]:
    the callee is handed the address of the pair only ([__cpus] is null in
    the one call below) and its declared access is read-write on that
    array, so it reads and rewrites the pair and its own state.  A null
    function pointer is [None]. *)
Definition __riscv_hwprobe_t : Type :=
  hwprobe_args -> K -> (Z * riscv_hwprobe) * K.

Record machine : Type := {
  mem : gmap Z val;
  kernel : K;
  events : list event
}.

(** State passing, written as a monad. *)
Definition M (A : Type) : Type := machine -> A * machine.

Definition ret {A} (a : A) : M A := fun m => (a, m).

Definition bind {A B} (c : M A) (k : A -> M B) : M B :=
  fun m => let '(a, m') := c m in k a m'.

Notation "'do' x <- c ; k" := (bind c (fun x => k))
  (at level 10, x name, c at level 100, k at level 200).

(** [hwprobe_func (&pair, ...)] *)
Definition call (f : __riscv_hwprobe_t) (args : hwprobe_args)
  : M (Z * riscv_hwprobe) :=
  fun m =>
    let '(r, k') := f args (kernel m) in
    (r, {| mem := mem m; kernel := k'; events := events m ++ [EvCall args] |}).

(** [*p = v] *)
Definition store (p : addr) (v : val) : M unit :=
  fun m =>
    (tt, {| mem := <[p := v]> (mem m); kernel := kernel m;
            events := events m ++ [EvStore p v] |}).

(** [static __inline int __riscv_hwprobe_one (__riscv_hwprobe_t hwprobe_func,
       long long int key, unsigned long long int *value)] *)
Definition __riscv_hwprobe_one (hwprobe_func : option __riscv_hwprobe_t)
    (key0 : Z) (value0 : addr) : M Z :=
  match hwprobe_func with
  | None => ret ENOSYS
  | Some f =>
      let pair_ := {| key := key0; value := Vundef |} in
      do r <- call f {| __pairs := pair_; __pair_count := 1;
                        __cpusetsize := 0; __cpus := None; __flags := 0 |};
      let '(rc, pair_) := r in
      if decide (rc ≠ 0) then ret rc
      else if decide (key pair_ < 0) then ret ENOENT
      else do _ <- store value0 (value pair_); ret 0
  end.

(** The argument record of the single call the helper makes. *)
Definition probe_request (key0 : Z) : hwprobe_args :=
  {| __pairs := {| key := key0; value := Vundef |}; __pair_count := 1;
     __cpusetsize := 0; __cpus := None; __flags := 0 |}.

(** The machine right after the call of the probe function. *)
Definition after_call (m : machine) (key0 : Z) (k' : K) : machine :=
  {| mem := mem m; kernel := k';
     events := events m ++ [EvCall (probe_request key0)] |}.

(** The events a run appended to the log. *)
Definition new_events (m m' : machine) : list event :=
  drop (length (events m)) (events m').

Definition is_store_at (p : addr) (e : event) : bool :=
  match e with
  | EvStore q _ => bool_decide (q = p)
  | EvCall _ => false
  end.

End Helper.

Arguments mem {K} _.
Arguments kernel {K} _.
Arguments events {K} _.
Arguments new_events {K} _ _.
Arguments after_call {K} _ _ _.
Arguments Build_machine {K} _ _ _.

(** A probe that knows every key below 7 and answers its number plus 100;
    other keys are marked unknown by a negative key, as the kernel does. *)
Definition demo_probe : __riscv_hwprobe_t unit :=
  fun args k =>
    let q := key (__pairs args) in
    if decide (q < 7)
    then ((0, {| key := q; value := Vlong (q + 100) |}), k)
    else ((0, {| key := -1; value := Vlong 0 |}), k).

Definition demo_machine : machine unit :=
  {| mem := {[ 64 := Vlong 7 ]}; kernel := tt; events := [] |}.

End Hwprobe.

(* ===================================================================== *)
(** ** The functions the three headers name *)
(* ===================================================================== *)

Module Headers.

Open Scope string_scope.

(** How a header introduces a function: a prototype whose body lives
    elsewhere, or a definition with a body, recorded with the number of
    [if] statements in that body. *)
Inductive function_form : Type :=
| ExternDeclaration
| InlineDefinition (conditionals : nat).

Record function_entry : Type := {
  fn_header : string;
  fn_name : string;
  fn_form : function_form
}.

Definition declared (h : string) (names : list string) : list function_entry :=
  map (fun n => {| fn_header := h; fn_name := n;
                   fn_form := ExternDeclaration |}) names.




(** [stdio.h]: every [extern] prototype, in order of first appearance
    (the [__REDIRECT] forms redeclare names already listed). *)
Definition stdio_h : list function_entry :=
  declared "stdio.h"
    ["remove"; "rename"; "renameat"; "renameat2"; "fclose"; "tmpfile";
     "tmpfile64"; "tmpnam"; "tmpnam_r"; "tempnam"; "fflush";
     "fflush_unlocked"; "fcloseall"; "fopen"; "freopen"; "fopen64";
     "freopen64"; "fdopen"; "fopencookie"; "fmemopen"; "open_memstream";
     "open_wmemstream"; "setbuf"; "setvbuf"; "setbuffer"; "setlinebuf";
     "fprintf"; "printf"; "sprintf"; "vfprintf"; "vprintf"; "vsprintf";
     "snprintf"; "vsnprintf"; "vasprintf"; "__asprintf"; "asprintf";
     "vdprintf"; "dprintf"; "fscanf"; "scanf"; "sscanf"; "__isoc23_fscanf";
     "__isoc23_scanf"; "__isoc23_sscanf"; "__isoc99_fscanf";
     "__isoc99_scanf"; "__isoc99_sscanf"; "vfscanf"; "vscanf"; "vsscanf";
     "__isoc23_vfscanf"; "__isoc23_vscanf"; "__isoc23_vsscanf";
     "__isoc99_vfscanf"; "__isoc99_vscanf"; "__isoc99_vsscanf"; "fgetc";
     "getc"; "getchar"; "getc_unlocked"; "getchar_unlocked";
     "fgetc_unlocked"; "fputc"; "putc"; "putchar"; "fputc_unlocked";
     "putc_unlocked"; "putchar_unlocked"; "getw"; "putw"; "fgets"; "gets";
     "fgets_unlocked"; "__getdelim"; "getdelim"; "getline"; "fputs"; "puts";
     "ungetc"; "fread"; "fwrite"; "fputs_unlocked"; "fread_unlocked";
     "fwrite_unlocked"; "fseek"; "ftell"; "rewind"; "fseeko"; "ftello";
     "fgetpos"; "fsetpos"; "fseeko64"; "ftello64"; "fgetpos64"; "fsetpos64";
     "clearerr"; "feof"; "ferror"; "clearerr_unlocked"; "feof_unlocked";
     "ferror_unlocked"; "perror"; "fileno"; "fileno_unlocked"; "pclose";
     "popen"; "ctermid"; "cuserid"; "obstack_printf"; "obstack_vprintf";
     "flockfile"; "ftrylockfile"; "funlockfile"; "__uflow"; "__overflow"].


Definition is_extern (f : function_entry) : bool :=
  match fn_form f with
  | ExternDeclaration => true
  | InlineDefinition _ => false
  end.

End Headers.

(* ===================================================================== *)
(** ** The buffered stream layer behind the [stdio.h] declarations *)
(* ===================================================================== *)

(** [stdio.h] only declares [fopen], [fgetc], [fread], [fputc], [fwrite],
    [fflush], [fseek], [ungetc], [fclose] and [clearerr]; their bodies are
    not among the sources.  The stream they operate on is modelled here
    from the specification's component design. *)

Module StreamIO.

Open Scope nat_scope.

Definition byte : Type := Byte.byte.

(** [#define BUFSIZ 8192], the default buffer size of [stdio.h]. *)
Definition BUFSIZ : nat := Z.to_nat 8192.

Definition newline : byte := x0a.

#[global] Instance byte_eq_decision : EqDecision byte := Byte.byte_eq_dec.

(** Modelled from the spec: the buffering modes of a Stream (the bodies of
    the stdio functions are missing); [_IONBF], [_IOLBF], [_IOFBF]. *)
Inductive Mode : Type := Unbuffered | LineBuffered | FullyBuffered.

(** Modelled from the spec: the direction of a Stream, exactly one of
    idle, reading, writing. *)
Inductive Direction : Type := Idle | Reading | Writing.

(** [SEEK_SET], [SEEK_CUR], [SEEK_END]. *)
Inductive Whence : Type := SeekStart | SeekCurrent | SeekEnd.

(** Modelled from the spec: what a [DeviceError] carries, the raw error of
    the device or the fatal lack of progress of a retried write. *)
Inductive DeviceFault : Type :=
| RawError (code : Z)
| NoProgress.

(** Modelled from the spec: the error taxonomy; [EndOfStream] is not an
    error and lives in [ReadResult]. *)
Inductive Error : Type :=
| UsageError
| DeviceError (f : DeviceFault).

Inductive Result (A : Type) : Type :=
| Ok (a : A)
| Err (e : Error).
Arguments Ok {A} a.
Arguments Err {A} e.

Inductive ReadResult : Type :=
| GotByte (b : byte)
| EndOfStream
| ReadError (e : Error).

(** What a device call answers: a value, or the device's raw error. *)
Inductive DevResult (A : Type) : Type :=
| DevOk (a : A)
| DevFail (code : Z).
Arguments DevOk {A} a.
Arguments DevFail {A} code.

(** Modelled from the spec: the raw-device collaborator and its four
    operations.  [deviceRead d maxLen] answers the bytes it placed in the
    buffer, [deviceWrite d bytes] how many of them it took, [deviceSeek]
    the offset it reached. *)
Class Device (D : Type) : Type := {
  deviceRead : D -> nat -> DevResult (list byte) * D;
  deviceWrite : D -> list byte -> DevResult nat * D;
  deviceSeek : D -> Z -> Whence -> DevResult Z * D;
  deviceClose : D -> DevResult unit
}.

(** A device read fills a buffer of [maxLen] bytes: it cannot answer more. *)
Class DeviceContract (D : Type) `{Device D} : Prop := {
  deviceRead_bound : forall d n bs d',
    deviceRead d n = (DevOk bs, d') -> length bs <= n
}.

(** The calls a Stream made to its device, oldest first. *)
Inductive DevEvent : Type :=
| EvRead (maxLen : nat) (r : DevResult (list byte))
| EvWrite (data : list byte) (r : DevResult nat)
| EvSeek (offset : Z) (whence : Whence) (r : DevResult Z)
| EvClose (r : DevResult unit).

(** Modelled from the spec: the Stream entity of the data model.  [handle]
    is [None] once closed; [buffer] is the resizable byte sequence, of
    which the first [write_end] bytes are in use; [sticky] is the fault
    remembered with [error_flag]; [trace] records the device calls and
    takes no part in any decision.  The lock is left out: no operation
    below depends on it. *)
Record Stream (D : Type) : Type := mkStream {
  handle : option D;
  buffer : list byte;
  capacity : nat;
  read_pos : nat;
  write_end : nat;
  mode : Mode;
  direction : Direction;
  eof_flag : bool;
  error_flag : bool;
  sticky : DeviceFault;
  position : Z;
  trace : list DevEvent
}.
Arguments mkStream {D}.
Arguments handle {D}.
Arguments buffer {D}.
Arguments capacity {D}.
Arguments read_pos {D}.
Arguments write_end {D}.
Arguments mode {D}.
Arguments direction {D}.
Arguments eof_flag {D}.
Arguments error_flag {D}.
Arguments sticky {D}.
Arguments position {D}.
Arguments trace {D}.

Section Operations.

Context {D : Type} `{Device D}.

Local Abbreviation Stream := (Stream D).

(** Field updates. *)
Definition set_device (d : option D) (e : DevEvent) (s : Stream) : Stream :=
  mkStream d (buffer s) (capacity s) (read_pos s) (write_end s) (mode s)
    (direction s) (eof_flag s) (error_flag s) (sticky s) (position s)
    (trace s ++ [e]).

Definition set_buffer (buf : list byte) (rp we : nat) (s : Stream) : Stream :=
  mkStream (handle s) buf (capacity s) rp we (mode s) (direction s)
    (eof_flag s) (error_flag s) (sticky s) (position s) (trace s).

Definition set_direction (dir : Direction) (s : Stream) : Stream :=
  mkStream (handle s) (buffer s) (capacity s) (read_pos s) (write_end s)
    (mode s) dir (eof_flag s) (error_flag s) (sticky s) (position s)
    (trace s).

Definition set_eof (s : Stream) : Stream :=
  mkStream (handle s) (buffer s) (capacity s) (read_pos s) (write_end s)
    (mode s) (direction s) true (error_flag s) (sticky s) (position s)
    (trace s).

Definition set_error (f : DeviceFault) (s : Stream) : Stream :=
  mkStream (handle s) (buffer s) (capacity s) (read_pos s) (write_end s)
    (mode s) (direction s) (eof_flag s) true f (position s) (trace s).

Definition set_position (p : Z) (s : Stream) : Stream :=
  mkStream (handle s) (buffer s) (capacity s) (read_pos s) (write_end s)
    (mode s) (direction s) (eof_flag s) (error_flag s) (sticky s) p
    (trace s).

(** The bytes in use: the first [write_end] bytes of the buffer. *)
Definition pending (s : Stream) : list byte := take (write_end s) (buffer s).

(** Modelled from the spec: operations on a closed Stream fail with a usage
    error, and while [error_flag] is set they fail fast with the sticky
    error and attempt no I/O. *)
Definition check (s : Stream) : option Error :=
  match handle s with
  | None => Some UsageError
  | Some _ => if error_flag s then Some (DeviceError (sticky s)) else None
  end.

(** Modelled from the spec: [open(source, mode)].  [source] is what the
    external open of the device answered; the buffer is not allocated;
    a requested capacity of 0 selects [BUFSIZ]. *)
Definition open (source : DevResult D) (m : Mode) (cap : nat)
  : Result Stream :=
  match source with
  | DevFail c => Err (DeviceError (RawError c))
  | DevOk d =>
      Ok (mkStream (Some d) [] (if decide (cap = 0) then BUFSIZ else cap)
            0 0 m Idle false false NoProgress 0%Z [])
  end.

Inductive RetryOutcome : Type :=
| RetryDone
| RetryFailed (f : DeviceFault)
| RetryOutOfFuel.

(** Modelled from the spec: the partial-write retry loop.  Each round is
    one device write of the bytes still to go; it stops when none are
    left, when the device reports an error, or on the second zero-progress
    write in a row ([stalled] remembers the first). *)
Fixpoint write_retry (fuel : nat) (d : D) (togo : list byte) (stalled : bool)
    (tr : list DevEvent) : D * list byte * list DevEvent * RetryOutcome :=
  match togo with
  | [] => (d, [], tr, RetryDone)
  | _ :: _ =>
      match fuel with
      | O => (d, togo, tr, RetryOutOfFuel)
      | S fuel' =>
          let '(r, d') := deviceWrite d togo in
          let tr' := tr ++ [EvWrite togo r] in
          match r with
          | DevFail c => (d', togo, tr', RetryFailed (RawError c))
          | DevOk O =>
              if stalled then (d', togo, tr', RetryFailed NoProgress)
              else write_retry fuel' d' togo true tr'
          | DevOk (S w) => write_retry fuel' d' (drop (S w) togo) false tr'
          end
      end
  end.

(** Rounds granted to the loop: two per byte. *)
Definition retry_budget (togo : list byte) : nat := 2 * length togo.

(** The Stream once the retry loop has run: the bytes it could not write
    stay in the buffer. *)
Definition flushed (s : Stream) (d' : D) (rest : list byte)
    (tr : list DevEvent) : Stream :=
  mkStream (Some d') rest (capacity s) 0 (length rest) (mode s)
    (direction s) (eof_flag s) (error_flag s) (sticky s) (position s) tr.

(** Modelled from the spec: the flush of pending writes shared by [flush],
    [writeByte], [readByte], [seek] and [close]. *)
Definition flush_pending (s : Stream) : Stream * Result unit :=
  match handle s with
  | None => (s, Err UsageError)
  | Some d =>
      let '(d', rest, tr, out) :=
        write_retry (retry_budget (pending s)) d (pending s) false (trace s) in
      let s' := flushed s d' rest tr in
      match out with
      | RetryDone => (s', Ok tt)
      | RetryFailed f => (set_error f s', Err (DeviceError f))
      | RetryOutOfFuel =>
          (set_error NoProgress s', Err (DeviceError NoProgress))
      end
  end.

(** Modelled from the spec: [flush()], a no-op unless writing. *)
Definition flush (s : Stream) : Stream * Result unit :=
  match check s with
  | Some e => (s, Err e)
  | None =>
      match direction s with
      | Writing => flush_pending s
      | _ => (s, Ok tt)
      end
  end.

(** Modelled from the spec: the buffer refill of [readByte], one device
    read of up to [capacity] bytes; zero bytes set [eof_flag], a device
    failure sets [error_flag]. *)
Definition refill (s : Stream) : Stream * ReadResult :=
  match handle s with
  | None => (s, ReadError UsageError)
  | Some d =>
      let '(r, d') := deviceRead d (capacity s) in
      let s1 := set_device (Some d') (EvRead (capacity s) r) s in
      match r with
      | DevFail c =>
          (set_error (RawError c) s1, ReadError (DeviceError (RawError c)))
      | DevOk [] => (set_eof (set_direction Reading s1), EndOfStream)
      | DevOk (b :: bs) =>
          (set_position (position s + 1)
             (set_direction Reading
                (set_buffer (b :: bs) 1 (length (b :: bs)) s1)),
           GotByte b)
      end
  end.

(** Modelled from the spec: [readByte()]. *)
Definition readByte (s : Stream) : Stream * ReadResult :=
  match check s with
  | Some e => (s, ReadError e)
  | None =>
      match direction s with
      | Reading =>
          match pending s !! read_pos s with
          | Some b =>
              (set_position (position s + 1)
                 (set_buffer (buffer s) (S (read_pos s)) (write_end s) s),
               GotByte b)
          | None => refill s
          end
      | Writing =>
          match flush_pending s with
          | (s', Ok _) => refill s'
          | (s', Err e) => (s', ReadError e)
          end
      | Idle => refill s
      end
  end.

(** Modelled from the spec: [readBytes(n)], the single-byte logic repeated
    until [n] bytes are collected or a read yields none; the count read is
    the length of the answer. *)
Fixpoint readBytes (n : nat) (s : Stream) : Stream * list byte :=
  match n with
  | O => (s, [])
  | S n' =>
      match readByte s with
      | (s', GotByte b) =>
          let '(s'', bs) := readBytes n' s' in (s'', b :: bs)
      | (s', _) => (s', [])
      end
  end.

(** The modes' flush rule after a byte has been appended. *)
Definition flushes_after (m : Mode) (b : byte) : bool :=
  match m with
  | Unbuffered => true
  | LineBuffered => bool_decide (b = newline)
  | FullyBuffered => false
  end.

(** The switch to the writing direction: unread buffered bytes are
    discarded. *)
Definition to_writing (s : Stream) : Stream :=
  set_direction Writing
    match direction s with
    | Reading => set_buffer [] 0 0 s
    | _ => s
    end.

(** One more byte in the write buffer. *)
Definition append_byte (b : byte) (s : Stream) : Stream :=
  set_position (position s + 1)
    (set_buffer (pending s ++ [b]) 0 (S (write_end s)) s).

(** Modelled from the spec: [writeByte(b)]. *)
Definition writeByte (b : byte) (s : Stream) : Stream * Result unit :=
  match check s with
  | Some e => (s, Err e)
  | None =>
      let s1 := to_writing s in
      let '(s2, r) :=
        if decide (write_end s1 = capacity s1) then flush_pending s1
        else (s1, Ok tt) in
      match r with
      | Err e => (s2, Err e)
      | Ok _ =>
          let s3 := append_byte b s2 in
          if flushes_after (mode s3) b then flush_pending s3 else (s3, Ok tt)
      end
  end.

(** Modelled from the spec: [writeBytes(seq)], the policy of [writeByte]
    applied along the range; answers the count written. *)
Fixpoint writeBytes (seq : list byte) (s : Stream) : Stream * Result nat :=
  match seq with
  | [] => (s, Ok 0)
  | b :: rest =>
      match writeByte b s with
      | (s', Ok _) =>
          match writeBytes rest s' with
          | (s'', Ok n) => (s'', Ok (S n))
          | (s'', Err e) => (s'', Err e)
          end
      | (s', Err e) => (s', Err e)
      end
  end.

(** Modelled from the spec: [seek(offset, whence)]. *)
Definition seek (offset : Z) (whence : Whence) (s : Stream)
  : Stream * Result unit :=
  match check s with
  | Some e => (s, Err e)
  | None =>
      let '(s1, r1) :=
        match direction s with
        | Writing => flush_pending s
        | _ => (s, Ok tt)
        end in
      match r1, handle s1 with
      | Err e, _ => (s1, Err e)
      | Ok _, None => (s1, Err UsageError)
      | Ok _, Some d =>
          let '(r, d') := deviceSeek d offset whence in
          let s2 :=
            set_device (Some d') (EvSeek offset whence r)
              (set_buffer [] 0 0 s1) in
          match r with
          | DevFail c =>
              (set_error (RawError c) s2, Err (DeviceError (RawError c)))
          | DevOk p => (set_position p (set_direction Idle s2), Ok tt)
          end
      end
  end.

(** Modelled from the spec: [pushBack(byte)], one level, in front of the
    read cursor. *)
Definition pushBack (b : byte) (s : Stream) : Stream * Result unit :=
  match check s with
  | Some e => (s, Err e)
  | None =>
      match direction s, read_pos s with
      | Reading, S k =>
          (set_position (position s - 1)
             (set_buffer (<[k := b]> (buffer s)) k (write_end s) s),
           Ok tt)
      | _, _ => (s, Err UsageError)
      end
  end.

(** Modelled from the spec: [close()]. *)
Definition close (s : Stream) : Stream * Result unit :=
  match check s with
  | Some e => (s, Err e)
  | None =>
      let '(s1, r1) :=
        match direction s with
        | Writing => flush_pending s
        | _ => (s, Ok tt)
        end in
      match handle s1 with
      | None => (s1, Err UsageError)
      | Some d =>
          let r2 := deviceClose d in
          let s2 :=
            set_direction Idle
              (set_buffer [] 0 0 (set_device None (EvClose r2) s1)) in
          match r1, r2 with
          | Err e, _ => (s2, Err e)
          | Ok _, DevFail c =>
              (set_error (RawError c) s2, Err (DeviceError (RawError c)))
          | Ok _, DevOk _ => (s2, Ok tt)
          end
      end
  end.

(** Modelled from the spec: [clearError()]. *)
Definition clearError (s : Stream) : Stream :=
  mkStream (handle s) (buffer s) (capacity s) (read_pos s) (write_end s)
    (mode s) (direction s) false false (sticky s) (position s) (trace s).

(** The public operations on an existing Stream. *)
Inductive Op : Type :=
| OpReadByte
| OpReadBytes (n : nat)
| OpWriteByte (b : byte)
| OpWriteBytes (seq : list byte)
| OpFlush
| OpSeek (offset : Z) (whence : Whence)
| OpPushBack (b : byte)
| OpClose
| OpClearError.

(** The Stream an operation leaves behind. *)
Definition exec (o : Op) (s : Stream) : Stream :=
  match o with
  | OpReadByte => fst (readByte s)
  | OpReadBytes n => fst (readBytes n s)
  | OpWriteByte b => fst (writeByte b s)
  | OpWriteBytes seq => fst (writeBytes seq s)
  | OpFlush => fst (flush s)
  | OpSeek offset whence => fst (seek offset whence s)
  | OpPushBack b => fst (pushBack b s)
  | OpClose => fst (close s)
  | OpClearError => clearError s
  end.

(** Streams obtained from [open] by public operations. *)
Inductive reachable : Stream -> Prop :=
| reach_open source m cap s : open source m cap = Ok s -> reachable s
| reach_exec o s : reachable s -> reachable (exec o s).

(** The buffer-cursor invariant of the data model. *)
Definition cursor_inv (s : Stream) : Prop :=
  read_pos s <= write_end s /\ write_end s <= capacity s.

(** The events a run appended to the trace. *)
Definition new_events (s s' : Stream) : list DevEvent :=
  drop (length (trace s)) (trace s').

Definition is_empty_read (e : DevEvent) : bool :=
  match e with
  | EvRead _ (DevOk []) => true
  | _ => false
  end.

Definition is_write (e : DevEvent) : bool :=
  match e with
  | EvWrite _ _ => true
  | _ => false
  end.

End Operations.

(** *** An in-memory file

    The device the testable properties are run on: [content] with a
    [cursor], taking or giving at most [chunk] bytes per call, so that
    partial transfers occur; a file that is not [writable] refuses writes
    with [EBADF]. *)
Record MemFile : Type := mkMemFile {
  content : list byte;
  cursor : nat;
  chunk : nat;
  writable : bool
}.

Definition EBADF : Z := 9.
Definition EINVAL : Z := 22.

Definition mem_read (f : MemFile) (maxLen : nat)
  : DevResult (list byte) * MemFile :=
  let bs := take (Nat.min maxLen (chunk f)) (drop (cursor f) (content f)) in
  (DevOk bs,
   mkMemFile (content f) (cursor f + length bs) (chunk f) (writable f)).

(** Bytes written at the cursor replace what was there and extend the file;
    a cursor beyond the end leaves a gap of zero bytes. *)
Definition overwrite (old : list byte) (at_ : nat) (new : list byte)
  : list byte :=
  take at_ old ++ replicate (at_ - length old) x00 ++ new
    ++ drop (at_ + length new) old.

Definition mem_write (f : MemFile) (data : list byte)
  : DevResult nat * MemFile :=
  if writable f then
    let w := take (chunk f) data in
    (DevOk (length w),
     mkMemFile (overwrite (content f) (cursor f) w) (cursor f + length w)
       (chunk f) (writable f))
  else (DevFail EBADF, f).

Definition mem_seek (f : MemFile) (offset : Z) (whence : Whence)
  : DevResult Z * MemFile :=
  let base :=
    match whence with
    | SeekStart => 0%Z
    | SeekCurrent => Z.of_nat (cursor f)
    | SeekEnd => Z.of_nat (length (content f))
    end in
  let target := (base + offset)%Z in
  if decide (target < 0)%Z then (DevFail EINVAL, f)
  else
    (DevOk target,
     mkMemFile (content f) (Z.to_nat target) (chunk f) (writable f)).

#[global] Instance MemFile_device : Device MemFile := {
  deviceRead := mem_read;
  deviceWrite := mem_write;
  deviceSeek := mem_seek;
  deviceClose := fun _ => DevOk tt
}.

(** Runs of public operations, collecting the bytes the reads deliver. *)
Section Runs.

Context {D : Type} `{Device D}.

Inductive WriteOp : Type :=
| WByte (b : byte)
| WBytes (seq : list byte).

Inductive ReadOp : Type :=
| RByte
| RBytes (n : nat).

Definition written_by (w : WriteOp) : list byte :=
  match w with
  | WByte b => [b]
  | WBytes seq => seq
  end.

Definition requested_by (r : ReadOp) : nat :=
  match r with
  | RByte => 1
  | RBytes n => n
  end.

Definition do_write (w : WriteOp) (s : Stream D) : Stream D :=
  match w with
  | WByte b => fst (writeByte b s)
  | WBytes seq => fst (writeBytes seq s)
  end.

Definition do_read (r : ReadOp) (s : Stream D) : Stream D * list byte :=
  match r with
  | RByte =>
      match readByte s with
      | (s', GotByte b) => (s', [b])
      | (s', _) => (s', [])
      end
  | RBytes n => readBytes n s
  end.

Definition do_writes (ws : list WriteOp) (s : Stream D) : Stream D :=
  foldl (fun s w => do_write w s) s ws.

Fixpoint do_reads (rs : list ReadOp) (s : Stream D) : Stream D * list byte :=
  match rs with
  | [] => (s, [])
  | r :: rs' =>
      let '(s1, bs) := do_read r s in
      let '(s2, bs') := do_reads rs' s1 in
      (s2, bs ++ bs')
  end.

(** Writes, a flush, a seek to offset 0 from the start, then reads; the
    answer is the bytes read. *)
Definition round_trip (ws : list WriteOp) (rs : list ReadOp) (s : Stream D)
  : list byte :=
  let s1 := do_writes ws s in
  let s2 := fst (flush s1) in
  let s3 := fst (seek 0 SeekStart s2) in
  snd (do_reads rs s3).

(** The bytes of the line-buffering test: "ab" followed by a newline, and
    "ab" alone. *)
Definition ab_newline : list byte := [x61; x62; newline].
Definition ab : list byte := [x61; x62].

Definition device_writes (evs : list DevEvent) : list DevEvent :=
  filter (fun e => is_write e = true) evs.

(** Writing "ab\n" to [s] triggers exactly one device write, of 3 bytes,
    and writing "ab" triggers none. *)
Definition line_flush_property (s : Stream D) : Prop :=
  (exists data r,
     device_writes (new_events s (fst (writeBytes ab_newline s)))
     = [EvWrite data r] /\ length data = 3)
  /\ device_writes (new_events s (fst (writeBytes ab s))) = [].

(** Whatever is written to [s] and flushed is read back after a seek to
    the start, by reads of the same total length. *)
Definition round_trip_property (s : Stream D) : Prop :=
  forall ws rs,
    sum_list (map requested_by rs) = length (concat (map written_by ws)) ->
    round_trip ws rs s = concat (map written_by ws).

End Runs.

(** *** Predicates the proofs are stated with *)

Section Predicates.

Context {D : Type} `{Device D}.

Local Abbreviation Stream := (Stream D).

(** The trace ends with two zero-progress writes of the same bytes; when
    the loop was entered already stalled, one such write is enough. *)
Definition ends_stalled (stalled : bool) (togo : list byte)
    (evs : list DevEvent) : Prop :=
  exists pre data,
    evs = pre ++ [EvWrite data (DevOk 0)]
    /\ ((pre = [] /\ stalled = true /\ data = togo)
        \/ exists pre', pre = pre' ++ [EvWrite data (DevOk 0)]).

Definition retry_post (stalled : bool) (togo rest : list byte)
    (evs : list DevEvent) (out : RetryOutcome) : Prop :=
  match out with
  | RetryDone => rest = []
  | RetryFailed (RawError c) =>
      exists pre data, evs = pre ++ [EvWrite data (DevFail c)]
  | RetryFailed NoProgress => ends_stalled stalled togo evs
  | RetryOutOfFuel => False
  end.




(** The trace ends with two zero-progress writes in a row. *)
Definition ends_with_stall (evs : list DevEvent) : Prop :=
  exists pre data,
    evs = pre ++ [EvWrite data (DevOk 0); EvWrite data (DevOk 0)].

(** The trace ends with a write the device refused with code [c]. *)
Definition ends_with_failure (c : Z) (evs : list DevEvent) : Prop :=
  exists pre data, evs = pre ++ [EvWrite data (DevFail c)].

(** The trace is empty or ends with a write that made progress. *)
Definition settled (evs : list DevEvent) : Prop :=
  evs = [] \/ exists pre data w, evs = pre ++ [EvWrite data (DevOk (S w))].

(** What the result of an operation may be after the device calls [evs]:
    a stall or a refused write at the end of [evs] is the error the caller
    gets. *)
Definition verdict {A} (r : Result A) (evs : list DevEvent) : Prop :=
  match r with
  | Err (DeviceError NoProgress) => settled evs \/ ends_with_stall evs
  | Err (DeviceError (RawError c)) => settled evs \/ ends_with_failure c evs
  | _ => settled evs
  end.


(** The trace only grows, and [eof_flag] is raised exactly by an empty
    device read among the new events. *)
Definition ext (s s' : Stream) : Prop :=
  exists evs,
    trace s' = trace s ++ evs
    /\ eof_flag s' = eof_flag s || existsb is_empty_read evs.

(** The cursor invariant together with a buffer of at least one byte. *)
Definition ok (s : Stream) : Prop := cursor_inv s /\ 0 < capacity s.

Definition keeps (s s' : Stream) : Prop :=
  ext s s' /\ (DeviceContract D -> ok s -> ok s').

(** An open, error-free Stream over device state [d] with trace [tr] whose
    buffer holds exactly the bytes [bs], none of them unread input. *)
Definition holds (s : Stream) (d : D) (tr : list DevEvent) (bs : list byte)
  : Prop :=
  handle s = Some d /\ error_flag s = false /\ trace s = tr
  /\ pending s = bs /\ write_end s = length bs
  /\ (direction s = Reading -> bs = []).

End Predicates.

(** A writable file that moves at least a byte per call and whose cursor
    lies within its content. *)
Definition file_ok (f : MemFile) : Prop :=
  writable f = true /\ 0 < chunk f /\ cursor f <= length (content f).

(** The write phase: everything written so far, [w], lies in the file
    before the cursor or is pending in the buffer. *)
Definition writing (s : Stream MemFile) (w : list byte) : Prop :=
  exists f bs,
    holds s f (trace s) bs /\ file_ok f
    /\ length bs <= capacity s /\ 0 < capacity s
    /\ (direction s = Writing \/ bs = [])
    /\ take (cursor f) (content f) ++ bs = w.

(** After the flush: nothing pending, [w] lies before the cursor. *)
Definition flushed_ok (s : Stream MemFile) (w : list byte) : Prop :=
  exists f,
    holds s f (trace s) [] /\ file_ok f /\ 0 < capacity s
    /\ take (cursor f) (content f) = w.

(** The read phase: [avail] is what the reads will deliver, the unread
    part of the buffer followed by the file from the cursor on. *)
Definition reading (s : Stream MemFile) (avail : list byte) : Prop :=
  exists f,
    handle s = Some f /\ error_flag s = false /\ 0 < chunk f
    /\ 0 < capacity s /\ direction s <> Writing
    /\ (direction s = Idle -> drop (read_pos s) (pending s) = [])
    /\ drop (read_pos s) (pending s) ++ drop (cursor f) (content f) = avail.

(** The Stream [open] answers on a device that was opened. *)
Definition fresh (f : MemFile) (m : Mode) (cap : nat) : Stream MemFile :=
  mkStream (Some f) [] (if decide (cap = 0) then BUFSIZ else cap) 0 0 m Idle
    false false NoProgress 0%Z [].

(** Example files: an empty one, one that refuses writes, one opened at its
    end, one that takes no bytes. *)
Definition empty_file : MemFile := mkMemFile [] 0 4 true.
Definition read_only_file : MemFile := mkMemFile [] 0 4 false.
Definition appended_file : MemFile := mkMemFile [x7a] 1 4 true.
Definition stalled_file : MemFile := mkMemFile [] 0 0 true.

End StreamIO.

(* ===================================================================== *)
(** ** The probe keys and value bits of [sys/hwprobe.h] *)
(* ===================================================================== *)

Module HwprobeKeys.
Import Hwprobe.

(** The interface [sys/hwprobe.h] defines when the Linux header is absent
    (lines 41-61). *)
Definition RISCV_HWPROBE_KEY_MVENDORID : Z := 0.
Definition RISCV_HWPROBE_KEY_MARCHID : Z := 1.
Definition RISCV_HWPROBE_KEY_MIMPID : Z := 2.
Definition RISCV_HWPROBE_KEY_BASE_BEHAVIOR : Z := 3.
Definition RISCV_HWPROBE_BASE_BEHAVIOR_IMA : Z := Z.shiftl 1 0.
Definition RISCV_HWPROBE_KEY_IMA_EXT_0 : Z := 4.
Definition RISCV_HWPROBE_IMA_FD : Z := Z.shiftl 1 0.
Definition RISCV_HWPROBE_IMA_C : Z := Z.shiftl 1 1.
Definition RISCV_HWPROBE_IMA_V : Z := Z.shiftl 1 2.
Definition RISCV_HWPROBE_EXT_ZBA : Z := Z.shiftl 1 3.
Definition RISCV_HWPROBE_EXT_ZBB : Z := Z.shiftl 1 4.
Definition RISCV_HWPROBE_EXT_ZBS : Z := Z.shiftl 1 5.
Definition RISCV_HWPROBE_EXT_ZICBOZ : Z := Z.shiftl 1 6.
Definition RISCV_HWPROBE_KEY_CPUPERF_0 : Z := 5.
Definition RISCV_HWPROBE_MISALIGNED_UNKNOWN : Z := Z.shiftl 0 0.
Definition RISCV_HWPROBE_MISALIGNED_EMULATED : Z := Z.shiftl 1 0.
Definition RISCV_HWPROBE_MISALIGNED_SLOW : Z := Z.shiftl 2 0.
Definition RISCV_HWPROBE_MISALIGNED_FAST : Z := Z.shiftl 3 0.
Definition RISCV_HWPROBE_MISALIGNED_UNSUPPORTED : Z := Z.shiftl 4 0.
Definition RISCV_HWPROBE_MISALIGNED_MASK : Z := Z.shiftl 7 0.
Definition RISCV_HWPROBE_KEY_ZICBOZ_BLOCK_SIZE : Z := 6.

Definition hwprobe_keys : list Z :=
  [RISCV_HWPROBE_KEY_MVENDORID; RISCV_HWPROBE_KEY_MARCHID;
   RISCV_HWPROBE_KEY_MIMPID; RISCV_HWPROBE_KEY_BASE_BEHAVIOR;
   RISCV_HWPROBE_KEY_IMA_EXT_0; RISCV_HWPROBE_KEY_CPUPERF_0;
   RISCV_HWPROBE_KEY_ZICBOZ_BLOCK_SIZE].

(** The bits of the value of [RISCV_HWPROBE_KEY_IMA_EXT_0]. *)
Definition ima_ext_0_flags : list Z :=
  [RISCV_HWPROBE_IMA_FD; RISCV_HWPROBE_IMA_C; RISCV_HWPROBE_IMA_V;
   RISCV_HWPROBE_EXT_ZBA; RISCV_HWPROBE_EXT_ZBB; RISCV_HWPROBE_EXT_ZBS;
   RISCV_HWPROBE_EXT_ZICBOZ].

(** The values of the misaligned-access field of
    [RISCV_HWPROBE_KEY_CPUPERF_0]. *)
Definition misaligned_values : list Z :=
  [RISCV_HWPROBE_MISALIGNED_UNKNOWN; RISCV_HWPROBE_MISALIGNED_EMULATED;
   RISCV_HWPROBE_MISALIGNED_SLOW; RISCV_HWPROBE_MISALIGNED_FAST;
   RISCV_HWPROBE_MISALIGNED_UNSUPPORTED].

(** [flags | ...]: the value word that has the given flags set. *)
Definition flags_word (flags : list Z) : Z := foldr Z.lor 0 flags.

(** [(word & flag) != 0] *)
Definition has_flag (word flag : Z) : bool :=
  negb (Z.land word flag =? 0).

Section Callers.

Variable K : Type.

(** A probe function that returns 0 without touching the pair. *)
Definition silent_probe : __riscv_hwprobe_t K :=
  fun args k => ((0, __pairs args), k).

End Callers.

Arguments silent_probe {K} _ _.

End HwprobeKeys.

(* ===================================================================== *)
(** ** The helper behind an arbitrary function pointer *)
(* ===================================================================== *)

(** [Hwprobe] takes the probe function at its declared interface: it works
    on the pair it is handed.  The type [__riscv_hwprobe_t] itself promises
    nothing of the kind: the function behind the pointer is any C function,
    and may read and write every object of the caller it can reach (a
    global, an object whose address it learnt earlier), the one [value]
    points to included.  This module embeds the helper once more with such
    a callee; [keeps_to_pair] maps the callees of [Hwprobe] into it. *)

Module HwprobeShared.
Import Hwprobe.

Section Helper.

Variables ENOSYS ENOENT : Z.
Variable K : Type.

(** [typedef int ( *__riscv_hwprobe_t) (struct riscv_hwprobe *__pairs, ...)]:
    the callee receives the arguments, the caller's memory and its own
    state, and hands back its result, the pair, the memory and its state. *)
Definition __riscv_hwprobe_t : Type :=
  hwprobe_args -> gmap Z val -> K -> (Z * riscv_hwprobe) * (gmap Z val * K).

Notation "'do' x <- c ; k" := (bind K c (fun x => k))
  (at level 10, x name, c at level 100, k at level 200).

(** [hwprobe_func (&pair, ...)] *)
Definition call (f : __riscv_hwprobe_t) (args : hwprobe_args)
  : M K (Z * riscv_hwprobe) :=
  fun m =>
    let '(r, (mem1, k1)) := f args (mem m) (kernel m) in
    (r, {| mem := mem1; kernel := k1; events := events m ++ [EvCall args] |}).

(** [static __inline int __riscv_hwprobe_one (__riscv_hwprobe_t hwprobe_func,
       long long int key, unsigned long long int *value)] *)
Definition __riscv_hwprobe_one (hwprobe_func : option __riscv_hwprobe_t)
    (key0 : Z) (value0 : addr) : M K Z :=
  match hwprobe_func with
  | None => ret K ENOSYS
  | Some f =>
      let pair_ := {| key := key0; value := Vundef |} in
      do r <- call f {| __pairs := pair_; __pair_count := 1;
                        __cpusetsize := 0; __cpus := None; __flags := 0 |};
      let '(rc, pair_) := r in
      if decide (rc ≠ 0) then ret K rc
      else if decide (key pair_ < 0) then ret K ENOENT
      else do _ <- store K value0 (value pair_); ret K 0
  end.

(** The machine when the probe function has returned. *)
Definition returned (m : machine K) (key0 : Z) (mem1 : gmap Z val) (k1 : K)
  : machine K :=
  {| mem := mem1; kernel := k1;
     events := events m ++ [EvCall (probe_request key0)] |}.

(** A probe function of [Hwprobe], which leaves the caller's memory alone. *)
Definition keeps_to_pair (f : Hwprobe.__riscv_hwprobe_t K)
  : __riscv_hwprobe_t :=
  fun args mem0 k => let '(r, k') := f args k in (r, (mem0, k')).

(** A probe function that leaves the key of the pair as it was given. *)
Definition preserves_key (f : __riscv_hwprobe_t) : Prop :=
  forall args mem0 k, key (snd (fst (f args mem0 k))) = key (__pairs args).

End Helper.

Arguments returned {K} _ _ _ _.
Arguments keeps_to_pair {K} _ _ _ _.
Arguments preserves_key {K} _.

(** A probe function that fails with code 1 after writing 99 to the object
    at [p], for instance a global it keeps its last answer in. *)
Definition scribbling_probe (p : addr) : __riscv_hwprobe_t unit :=
  fun args mem0 k => ((1, __pairs args), (<[p := Vlong 99]> mem0, k)).

(** A probe function that counts its calls in the object at [p] and
    answers every key with its number plus 100. *)
Definition counting_probe (p : addr) : __riscv_hwprobe_t unit :=
  fun args mem0 k =>
    let calls := match mem0 !! p with Some (Vlong n) => n | _ => 0 end in
    let q := key (__pairs args) in
    ((0, {| key := q; value := Vlong (q + 100) |}),
     (<[p := Vlong (calls + 1)]> mem0, k)).

End HwprobeShared.

(* ===================================================================== *)
(** ** The conditional declarations of [stdio.h] *)
(* ===================================================================== *)

(** The large-file functions and the [scanf] family are declared under
    preprocessor conditions that choose between a plain prototype, a
    prototype redirected to another assembler name, and a macro.  The
    header is embedded as a function from the macros it tests to the
    declarations it makes. *)

Module StdioHeader.

(** The macros the modelled parts of [stdio.h] test.  [<features.h>],
    [<sys/cdefs.h>] and [<bits/long-double.h>] set them and are not among
    the sources: they are parameters.  A [bool] field says whether the
    macro is defined (for [__GLIBC_USE_...], whether [__GLIBC_USE (...)] is
    non-zero); [__LDOUBLE_REDIRECTS_TO_FLOAT128_ABI] is the macro's value;
    [__off_t_defined] and [__off64_t_defined] say whether an earlier header
    defined them. *)
Record features : Type := mkFeatures {
  __USE_UNIX98 : bool;
  __USE_XOPEN2K : bool;
  __USE_FILE_OFFSET64 : bool;
  __USE_LARGEFILE : bool;
  __USE_LARGEFILE64 : bool;
  __USE_ISOC99 : bool;
  __REDIRECT : bool;
  __GLIBC_USE_DEPRECATED_SCANF : bool;
  __GLIBC_USE_C23_STRTOL : bool;
  __LDBL_COMPAT : bool;
  __LDOUBLE_REDIRECTS_TO_FLOAT128_ABI : Z;
  __off_t_defined : bool;
  __off64_t_defined : bool
}.

(** The identifiers of the large-file and [scanf] families. *)
Inductive ident : Type :=
| tmpfile | tmpfile64 | fopen | fopen64 | freopen | freopen64
| fseeko | fseeko64 | ftello | ftello64
| fgetpos | fgetpos64 | fsetpos | fsetpos64
| fscanf | scanf | sscanf
| __isoc23_fscanf | __isoc23_scanf | __isoc23_sscanf
| __isoc99_fscanf | __isoc99_scanf | __isoc99_sscanf
| vfscanf | vscanf | vsscanf
| __isoc23_vfscanf | __isoc23_vscanf | __isoc23_vsscanf
| __isoc99_vfscanf | __isoc99_vscanf | __isoc99_vsscanf.

(** The type names of file offsets and positions. *)
Inductive type_name : Type :=
| __off_t | __off64_t | __fpos_t | __fpos64_t
| off_t | off64_t | fpos_t | fpos64_t.

Scheme Equality for ident.
Scheme Equality for type_name.

(** A prototype: the identifier it declares, the assembler name it binds
    the identifier to when it carries one, and the type name of its file
    position parameter or result when it has one. *)
Record prototype : Type := {
  p_name : ident;
  p_asm : option ident;
  p_pos : option type_name
}.

(** What the header contributes: [typedef ty name;], a prototype,
    [#define name body], or the text of a header that is not among the
    sources. *)
Inductive item : Type :=
| Typedef (ty name : type_name)
| Extern (p : prototype)
| Define (name body : ident)
| Include (header : string).

(** [extern ... n (...)] *)
Definition plain (n : ident) (pos : option type_name) : item :=
  Extern {| p_name := n; p_asm := None; p_pos := pos |}.

(** [extern ... __REDIRECT (n, (...), alias)]: [__REDIRECT] of
    [<sys/cdefs.h>] declares [n] with the assembler name [alias]. *)
Definition redirect (n : ident) (pos : option type_name) (alias : ident)
  : item :=
  Extern {| p_name := n; p_asm := Some alias; p_pos := pos |}.

(** [stdio.h], lines 61-74. *)
Definition offset_types (c : features) : list item :=
  if __USE_UNIX98 c || __USE_XOPEN2K c then
    (if negb (__off_t_defined c) then
       (if negb (__USE_FILE_OFFSET64 c) then [Typedef __off_t off_t]
        else [Typedef __off64_t off_t])
     else [])
    ++ (if __USE_LARGEFILE64 c && negb (__off64_t_defined c)
        then [Typedef __off64_t off64_t] else [])
  else [].

(** [stdio.h], lines 84-91. *)
Definition position_types (c : features) : list item :=
  (if negb (__USE_FILE_OFFSET64 c) then [Typedef __fpos_t fpos_t]
   else [Typedef __fpos64_t fpos_t])
  ++ (if __USE_LARGEFILE64 c then [Typedef __fpos64_t fpos64_t] else []).

(** [stdio.h], lines 196-211. *)
Definition tmpfile_decls (c : features) : list item :=
  (if negb (__USE_FILE_OFFSET64 c) then [plain tmpfile None]
   else if __REDIRECT c then [redirect tmpfile None tmpfile64]
   else [Define tmpfile tmpfile64])
  ++ (if __USE_LARGEFILE64 c then [plain tmpfile64 None] else []).

(** [stdio.h], lines 262-298. *)
Definition fopen_decls (c : features) : list item :=
  (if negb (__USE_FILE_OFFSET64 c)
   then [plain fopen None; plain freopen None]
   else if __REDIRECT c
   then [redirect fopen None fopen64; redirect freopen None freopen64]
   else [Define fopen fopen64; Define freopen freopen64])
  ++ (if __USE_LARGEFILE64 c
      then [plain fopen64 None; plain freopen64 None] else []).

(** [stdio.h], lines 425-486. *)
Definition scanf_decls (c : features) : list item :=
  [plain fscanf None; plain scanf None; plain sscanf None]
  ++ (if negb (__GLIBC_USE_DEPRECATED_SCANF c) && negb (__LDBL_COMPAT c)
         && (__LDOUBLE_REDIRECTS_TO_FLOAT128_ABI c =? 0)
      then
        if __GLIBC_USE_C23_STRTOL c then
          if __REDIRECT c
          then [redirect fscanf None __isoc23_fscanf;
                redirect scanf None __isoc23_scanf;
                redirect sscanf None __isoc23_sscanf]
          else [plain __isoc23_fscanf None; plain __isoc23_scanf None;
                plain __isoc23_sscanf None;
                Define fscanf __isoc23_fscanf; Define scanf __isoc23_scanf;
                Define sscanf __isoc23_sscanf]
        else
          if __REDIRECT c
          then [redirect fscanf None __isoc99_fscanf;
                redirect scanf None __isoc99_scanf;
                redirect sscanf None __isoc99_sscanf]
          else [plain __isoc99_fscanf None; plain __isoc99_scanf None;
                plain __isoc99_sscanf None;
                Define fscanf __isoc99_fscanf; Define scanf __isoc99_scanf;
                Define sscanf __isoc99_sscanf]
      else []).

(** [stdio.h], lines 488-571. *)
Definition vscanf_decls (c : features) : list item :=
  if __USE_ISOC99 c then
    [plain vfscanf None; plain vscanf None; plain vsscanf None]
    ++ (if negb (__GLIBC_USE_DEPRECATED_SCANF c) then
          if __GLIBC_USE_C23_STRTOL c then
            if __REDIRECT c && negb (__LDBL_COMPAT c)
               && (__LDOUBLE_REDIRECTS_TO_FLOAT128_ABI c =? 0)
            then [redirect vfscanf None __isoc23_vfscanf;
                  redirect vscanf None __isoc23_vscanf;
                  redirect vsscanf None __isoc23_vsscanf]
            else if negb (__REDIRECT c)
            then [plain __isoc23_vfscanf None; plain __isoc23_vscanf None;
                  plain __isoc23_vsscanf None;
                  Define vfscanf __isoc23_vfscanf;
                  Define vscanf __isoc23_vscanf;
                  Define vsscanf __isoc23_vsscanf]
            else []
          else
            if __REDIRECT c && negb (__LDBL_COMPAT c)
               && (__LDOUBLE_REDIRECTS_TO_FLOAT128_ABI c =? 0)
            then [redirect vfscanf None __isoc99_vfscanf;
                  redirect vscanf None __isoc99_vscanf;
                  redirect vsscanf None __isoc99_vsscanf]
            else if negb (__REDIRECT c)
            then [plain __isoc99_vfscanf None; plain __isoc99_vscanf None;
                  plain __isoc99_vsscanf None;
                  Define vfscanf __isoc99_vfscanf;
                  Define vscanf __isoc99_vscanf;
                  Define vsscanf __isoc99_vsscanf]
            else []
        else [])
  else [].

(** [stdio.h], lines 787-812. *)
Definition fseeko_decls (c : features) : list item :=
  if __USE_LARGEFILE c || __USE_XOPEN2K c then
    if negb (__USE_FILE_OFFSET64 c)
    then [plain fseeko (Some __off_t); plain ftello (Some __off_t)]
    else if __REDIRECT c
    then [redirect fseeko (Some __off64_t) fseeko64;
          redirect ftello (Some __off64_t) ftello64]
    else [Define fseeko fseeko64; Define ftello ftello64]
  else [].

(** [stdio.h], lines 814-838. *)
Definition fgetpos_decls (c : features) : list item :=
  if negb (__USE_FILE_OFFSET64 c)
  then [plain fgetpos (Some fpos_t); plain fsetpos (Some fpos_t)]
  else if __REDIRECT c
  then [redirect fgetpos (Some fpos_t) fgetpos64;
        redirect fsetpos (Some fpos_t) fsetpos64]
  else [Define fgetpos fgetpos64; Define fsetpos fsetpos64].

(** [stdio.h], lines 840-847. *)
Definition lfs64_decls (c : features) : list item :=
  if __USE_LARGEFILE64 c
  then [plain fseeko64 (Some __off64_t); plain ftello64 (Some __off64_t);
        plain fgetpos64 (Some fpos64_t); plain fsetpos64 (Some fpos64_t)]
  else [].

(** [stdio.h], lines 959-961: [#if defined __LDBL_COMPAT ||
    __LDOUBLE_REDIRECTS_TO_FLOAT128_ABI == 1].  [<bits/stdio-ldbl.h>] is not
    among the sources; by the comment at lines 436-439 it is where the
    [scanf] family is redirected when one of the two is in effect. *)
Definition includes_stdio_ldbl (c : features) : bool :=
  __LDBL_COMPAT c || (__LDOUBLE_REDIRECTS_TO_FLOAT128_ABI c =? 1).

Definition ldbl_redirections (c : features) : list item :=
  if includes_stdio_ldbl c then [Include "bits/stdio-ldbl.h"] else [].

(** The modelled parts of the header, in the order of the file. *)
Definition stdio_h (c : features) : list item :=
  offset_types c ++ position_types c ++ tmpfile_decls c ++ fopen_decls c
  ++ scanf_decls c ++ vscanf_decls c ++ fseeko_decls c ++ fgetpos_decls c
  ++ lfs64_decls c ++ ldbl_redirections c.

(** What an identifier stands for once the macros are expanded. *)
Fixpoint expand (items : list item) (n : ident) : ident :=
  match items with
  | [] => n
  | Define m body :: rest => if ident_beq m n then body else expand rest n
  | _ :: rest => expand rest n
  end.

(** The prototypes in force for an identifier. *)
Fixpoint prototypes_of (items : list item) (n : ident) : list prototype :=
  match items with
  | [] => []
  | Extern p :: rest =>
      if ident_beq (p_name p) n then p :: prototypes_of rest n
      else prototypes_of rest n
  | _ :: rest => prototypes_of rest n
  end.

(** The assembler name of an identifier: the label of a prototype that
    carries one, the identifier itself otherwise. *)
Fixpoint symbol_of (ps : list prototype) (n : ident) : ident :=
  match ps with
  | [] => n
  | p :: rest =>
      match p_asm p with
      | Some a => a
      | None => symbol_of rest n
      end
  end.

(** The type a type name is a [typedef] of, itself if the header gives
    none. *)
Fixpoint underlying (items : list item) (t : type_name) : type_name :=
  match items with
  | [] => t
  | Typedef ty name :: rest =>
      if type_name_beq name t then ty else underlying rest t
  | _ :: rest => underlying rest t
  end.

(** What a use of an identifier after [#include <stdio.h>] is bound to,
    as far as the text of [stdio.h] decides it: an assembler name and the
    type of its position parameter.  Where [includes_stdio_ldbl] holds the
    included header has its say on the [scanf] family, and what is proved
    of that family leaves those settings out. *)
Record binding : Type := {
  b_symbol : ident;
  b_pos : option type_name
}.

Definition bind_name (c : features) (n : ident) : option binding :=
  let items := stdio_h c in
  let n' := expand items n in
  match prototypes_of items n' with
  | [] => None
  | p :: ps =>
      Some {| b_symbol := symbol_of (p :: ps) n';
              b_pos := underlying items <$> p_pos p |}
  end.

Definition link_symbol (c : features) (n : ident) : option ident :=
  b_symbol <$> bind_name c n.

(** Every setting of the macros, up to the value of
    [__LDOUBLE_REDIRECTS_TO_FLOAT128_ABI] being 0, 1 or another. *)
Definition bools : list bool := [true; false].

Definition all_features : list features :=
  a ← bools; b ← bools; c ← bools; d ← bools; e ← bools; f ← bools;
  g ← bools; h ← bools; i ← bools; j ← bools; k ← [0; 1; 2]; l ← bools;
  m ← bools; [mkFeatures a b c d e f g h i j k l m].

Definition normalise (c : features) : features :=
  mkFeatures (__USE_UNIX98 c) (__USE_XOPEN2K c) (__USE_FILE_OFFSET64 c)
    (__USE_LARGEFILE c) (__USE_LARGEFILE64 c) (__USE_ISOC99 c) (__REDIRECT c)
    (__GLIBC_USE_DEPRECATED_SCANF c) (__GLIBC_USE_C23_STRTOL c)
    (__LDBL_COMPAT c)
    (if __LDOUBLE_REDIRECTS_TO_FLOAT128_ABI c =? 0 then 0
     else if __LDOUBLE_REDIRECTS_TO_FLOAT128_ABI c =? 1 then 1 else 2)
    (__off_t_defined c) (__off64_t_defined c).

Definition all_idents : list ident :=
  [tmpfile; tmpfile64; fopen; fopen64; freopen; freopen64; fseeko; fseeko64;
   ftello; ftello64; fgetpos; fgetpos64; fsetpos; fsetpos64; fscanf; scanf;
   sscanf; __isoc23_fscanf; __isoc23_scanf; __isoc23_sscanf; __isoc99_fscanf;
   __isoc99_scanf; __isoc99_sscanf; vfscanf; vscanf; vsscanf;
   __isoc23_vfscanf; __isoc23_vscanf; __isoc23_vsscanf; __isoc99_vfscanf;
   __isoc99_vscanf; __isoc99_vsscanf].

Definition with_redirect (r : bool) (c : features) : features :=
  mkFeatures (__USE_UNIX98 c) (__USE_XOPEN2K c) (__USE_FILE_OFFSET64 c)
    (__USE_LARGEFILE c) (__USE_LARGEFILE64 c) (__USE_ISOC99 c) r
    (__GLIBC_USE_DEPRECATED_SCANF c) (__GLIBC_USE_C23_STRTOL c)
    (__LDBL_COMPAT c) (__LDOUBLE_REDIRECTS_TO_FLOAT128_ABI c)
    (__off_t_defined c) (__off64_t_defined c).

(** Each large-file function with its 64-bit twin. *)
Definition lfs_twins : list (ident * ident) :=
  [(tmpfile, tmpfile64); (fopen, fopen64); (freopen, freopen64);
   (fseeko, fseeko64); (ftello, ftello64); (fgetpos, fgetpos64);
   (fsetpos, fsetpos64)].

(** The positioning functions with their twins and the types of a file
    position the two take. *)
Definition position_twins : list (ident * ident * type_name * type_name) :=
  [(fseeko, fseeko64, __off_t, __off64_t);
   (ftello, ftello64, __off_t, __off64_t);
   (fgetpos, fgetpos64, __fpos_t, __fpos64_t);
   (fsetpos, fsetpos64, __fpos_t, __fpos64_t)].

(** The identifiers of the large-file family. *)
Definition large_file_idents : list ident :=
  [tmpfile; tmpfile64; fopen; fopen64; freopen; freopen64; fseeko; fseeko64;
   ftello; ftello64; fgetpos; fgetpos64; fsetpos; fsetpos64].

Definition scanf_twins : list (ident * ident) :=
  [(fscanf, vfscanf); (scanf, vscanf); (sscanf, vsscanf)].

(** Which edition of the C standard an entry point of the [scanf] family
    implements. *)
Inductive generation : Type := Plain | C99 | C23.

Definition generation_of (s : ident) : generation :=
  match s with
  | __isoc23_fscanf | __isoc23_scanf | __isoc23_sscanf
  | __isoc23_vfscanf | __isoc23_vscanf | __isoc23_vsscanf => C23
  | __isoc99_fscanf | __isoc99_scanf | __isoc99_sscanf
  | __isoc99_vfscanf | __isoc99_vscanf | __isoc99_vsscanf => C99
  | _ => Plain
  end.

Scheme Equality for generation.

Definition option_ident_beq (a b : option ident) : bool :=
  match a, b with
  | Some x, Some y => ident_beq x y
  | None, None => true
  | _, _ => false
  end.

Definition option_type_beq (a b : option type_name) : bool :=
  match a, b with
  | Some x, Some y => type_name_beq x y
  | None, None => true
  | _, _ => false
  end.

(** The checks the theorems below are decided by, one per setting. *)
Definition width_check (c : features) : bool :=
  forallb
    (fun tw =>
       match link_symbol c (fst tw) with
       | None => true
       | Some s =>
           ident_beq s (if __USE_FILE_OFFSET64 c then snd tw else fst tw)
       end) lfs_twins.

Definition declared_check (c : features) : bool :=
  forallb
    (fun tw =>
       let n := fst tw in
       Bool.eqb
         (match link_symbol c n with None => true | Some _ => false end)
         (__USE_FILE_OFFSET64 c && negb (__REDIRECT c)
            && negb (__USE_LARGEFILE64 c)
          || (ident_beq n fseeko || ident_beq n ftello)
             && negb (__USE_LARGEFILE c) && negb (__USE_XOPEN2K c)))
    lfs_twins.

Definition position_check (c : features) : bool :=
  forallb
    (fun q =>
       let '(n, n64, t, t64) := q in
       forallb
         (fun m =>
            match bind_name c m with
            | None => true
            | Some b =>
                ident_beq (b_symbol b) n && option_type_beq (b_pos b) (Some t)
                || ident_beq (b_symbol b) n64
                   && option_type_beq (b_pos b) (Some t64)
            end) [n; n64])
    position_twins.

Definition off_t_check (c : features) : bool :=
  forallb
    (fun n =>
       match bind_name c n with
       | None => true
       | Some b =>
           type_name_beq (underlying (stdio_h c) off_t) off_t
           || option_type_beq (b_pos b) (Some (underlying (stdio_h c) off_t))
       end) [fseeko; ftello].

Definition scanf_check (c : features) : bool :=
  includes_stdio_ldbl c
  || forallb
       (fun n =>
          match link_symbol c n with
          | None => false
          | Some _ =>
              option_ident_beq (link_symbol (with_redirect true c) n)
                (link_symbol (with_redirect false c) n)
          end) [fscanf; scanf; sscanf].

Definition vscanf_check (c : features) : bool :=
  forallb
    (fun tw =>
       negb (__USE_ISOC99 c) || __LDBL_COMPAT c
       || negb (__LDOUBLE_REDIRECTS_TO_FLOAT128_ABI c =? 0)
       || match link_symbol c (fst tw), link_symbol c (snd tw) with
          | Some s, Some sv =>
              generation_beq (generation_of s) (generation_of sv)
              && generation_beq (generation_of s)
                   (if __GLIBC_USE_DEPRECATED_SCANF c then Plain
                    else if __GLIBC_USE_C23_STRTOL c then C23 else C99)
          | _, _ => false
          end) scanf_twins.

Definition chain_check (c : features) : bool :=
  forallb
    (fun n =>
       negb (existsb (ident_beq n) large_file_idents)
       && includes_stdio_ldbl c
       || match link_symbol c n with
          | None => true
          | Some s =>
              match link_symbol c s with
              | None => true
              | Some s' => ident_beq s' s
              end
          end) all_idents.

End StdioHeader.

(* ===================================================================== *)
(** ** Properties of [__riscv_hwprobe_one] *)
(* ===================================================================== *)

Module HwprobeFacts.
Import Hwprobe.

Section Facts.

Variables ENOSYS ENOENT : Z.
Variable K : Type.

Local Abbreviation hwprobe_one := (__riscv_hwprobe_one ENOSYS ENOENT K).

(** The run of the helper through a non-null function pointer, path by
    path. *)
Lemma hwprobe_one_run (f : __riscv_hwprobe_t K) key0 value0 (m : machine K) :
  forall rc p k', f (probe_request key0) (kernel m) = ((rc, p), k') ->
  hwprobe_one (Some f) key0 value0 m =
    if decide (rc ≠ 0) then (rc, after_call m key0 k')
    else if decide (key p < 0) then (ENOENT, after_call m key0 k')
    else (0, {| mem := <[value0 := value p]> (mem m); kernel := k';
                events := (events m ++ [EvCall (probe_request key0)])
                            ++ [EvStore value0 (value p)] |}).
Proof.
  intros rc p k' Hf.
  unfold __riscv_hwprobe_one, bind, call, probe_request in *.
  rewrite Hf. cbn.
  destruct (decide (rc ≠ 0)); [reflexivity|].
  destruct (decide (key p < 0)); reflexivity.
Qed.

Lemma new_events_app (m : machine K) mem' k' evs :
  new_events m {| mem := mem'; kernel := k'; events := events m ++ evs |}
  = evs.
Proof. unfold new_events. cbn. apply drop_app_length. Qed.

(** C2: with a null [hwprobe_func] the helper returns [ENOSYS] and leaves
    the machine as it was: no probe function is invoked and nothing is
    stored through the value pointer, whatever the key and the pointer. *)
Theorem hwprobe_one_null key0 value0 (m : machine K) :
  hwprobe_one None key0 value0 m = (ENOSYS, m)
  /\ new_events m (snd (hwprobe_one None key0 value0 m)) = [].
Proof.
  split; [reflexivity|].
  unfold new_events. cbn. apply drop_all.
Qed.

(** C4: through a non-null [hwprobe_func] the helper calls it exactly once,
    on a pair carrying the key, with pair count 1, cpu-set size 0, a null
    cpu set and flags 0.  A non-zero answer is returned unchanged; answer 0
    with a negative key in the pair gives [ENOENT]; otherwise the pair's
    value is stored through the value pointer and 0 is returned. *)
Theorem hwprobe_one_behaviour (f : __riscv_hwprobe_t K) key0 value0
    (m : machine K) :
  let args :=
    {| __pairs := {| key := key0; value := Vundef |}; __pair_count := 1;
       __cpusetsize := 0; __cpus := None; __flags := 0 |} in
  let '((rc, p), k') := f args (kernel m) in
  let '(r, m') := hwprobe_one (Some f) key0 value0 m in
  kernel m' = k'
  /\ (rc ≠ 0 ->
        r = rc /\ new_events m m' = [EvCall args] /\ mem m' = mem m)
  /\ (rc = 0 -> key p < 0 ->
        r = ENOENT /\ new_events m m' = [EvCall args] /\ mem m' = mem m)
  /\ (rc = 0 -> 0 <= key p ->
        r = 0
        /\ new_events m m' = [EvCall args; EvStore value0 (value p)]
        /\ mem m' = <[value0 := value p]> (mem m)).
Proof.
  cbv zeta.
  change {| __pairs := {| key := key0; value := Vundef |}; __pair_count := 1;
            __cpusetsize := 0; __cpus := None; __flags := 0 |}
    with (probe_request key0).
  destruct (f (probe_request key0) (kernel m)) as [[rc p] k'] eqn:Hf.
  rewrite (hwprobe_one_run f key0 value0 m rc p k' Hf).
  destruct (decide (rc ≠ 0)) as [Hrc|Hrc].
  - unfold after_call. rewrite new_events_app. cbn.
    repeat split; intros; try reflexivity; try contradiction.
  - destruct (decide (key p < 0)) as [Hk|Hk].
    + unfold after_call. rewrite new_events_app. cbn.
      repeat split; intros; try reflexivity; try contradiction; lia.
    + rewrite <- app_assoc, new_events_app. cbn.
      repeat split; intros; try reflexivity; try contradiction; lia.
Qed.

End Facts.

Lemma hwprobe_one_behaviour_witness :
  let args := probe_request 9 in
  let '((rc, p), k') := demo_probe args (kernel demo_machine) in
  let '(r, m') :=
    __riscv_hwprobe_one 38 2 unit (Some demo_probe) 9 64 demo_machine in
  kernel m' = k'
  /\ (rc ≠ 0 ->
        r = rc /\ new_events demo_machine m' = [EvCall args]
        /\ mem m' = mem demo_machine)
  /\ (rc = 0 -> key p < 0 ->
        r = 2 /\ new_events demo_machine m' = [EvCall args]
        /\ mem m' = mem demo_machine)
  /\ (rc = 0 -> 0 <= key p ->
        r = 0
        /\ new_events demo_machine m' = [EvCall args; EvStore 64 (value p)]
        /\ mem m' = <[64 := value p]> (mem demo_machine)).
Proof.
  exact (hwprobe_one_behaviour 38 2 unit demo_probe 9 64 demo_machine).
Defined.

End HwprobeFacts.

(* ===================================================================== *)
(** ** [__riscv_hwprobe_one] behind an arbitrary function pointer *)
(* ===================================================================== *)

Module HwprobeSharedFacts.
Import Hwprobe.

Section Facts.

Variables ENOSYS ENOENT : Z.
Variable K : Type.

Local Abbreviation hwprobe_one :=
  (HwprobeShared.__riscv_hwprobe_one ENOSYS ENOENT K).

(** The run of the helper through a non-null function pointer, path by
    path: whatever the callee did to the memory stays, and the helper adds
    one store on the path that returns 0. *)
Lemma shared_run (f : HwprobeShared.__riscv_hwprobe_t K) key0 value0
    (m : machine K) :
  forall rc p mem1 k1,
    f (probe_request key0) (mem m) (kernel m) = ((rc, p), (mem1, k1)) ->
    hwprobe_one (Some f) key0 value0 m =
      if decide (rc ≠ 0) then (rc, HwprobeShared.returned m key0 mem1 k1)
      else if decide (key p < 0)
      then (ENOENT, HwprobeShared.returned m key0 mem1 k1)
      else (0, {| mem := <[value0 := value p]> mem1; kernel := k1;
                  events := (events m ++ [EvCall (probe_request key0)])
                              ++ [EvStore value0 (value p)] |}).
Proof.
  intros rc p mem1 k1 Hf.
  unfold HwprobeShared.__riscv_hwprobe_one, bind, HwprobeShared.call,
    probe_request in *.
  rewrite Hf. cbn.
  destruct (decide (rc ≠ 0)); [reflexivity|].
  destruct (decide (key p < 0)); reflexivity.
Qed.

(** With a callee that keeps to the pair, this embedding and the one of
    [Hwprobe] run alike. *)
Lemma keeps_to_pair_run (fp : option (Hwprobe.__riscv_hwprobe_t K)) key0
    value0 (m : machine K) :
  hwprobe_one (HwprobeShared.keeps_to_pair <$> fp) key0 value0 m
  = Hwprobe.__riscv_hwprobe_one ENOSYS ENOENT K fp key0 value0 m.
Proof.
  destruct fp as [f|]; [|reflexivity].
  cbn [fmap option_fmap option_map].
  destruct (f (probe_request key0) (kernel m)) as [[rc p] k'] eqn:Hf.
  rewrite (shared_run (HwprobeShared.keeps_to_pair f) key0 value0 m
             rc p (mem m) k')
    by (unfold HwprobeShared.keeps_to_pair; rewrite Hf; reflexivity).
  rewrite (HwprobeFacts.hwprobe_one_run ENOSYS ENOENT K f key0 value0 m
             rc p k' Hf).
  reflexivity.
Qed.

Lemma shared_new_events (m : machine K) mem' k' evs :
  new_events m {| mem := mem'; kernel := k'; events := events m ++ evs |}
  = evs.
Proof. unfold new_events. cbn. apply drop_app_length. Qed.

(** C3, amended: through a non-null [hwprobe_func] the helper stores through
    the value pointer if and only if it returns 0, and the location then
    holds the value the probe function answered; on a non-zero return the
    helper stores nothing, so the memory is as the probe function left it,
    and the location the value pointer names is unchanged whenever the
    probe function did not write it.  [ENOENT] is taken to be a non-zero
    error code. *)
Theorem hwprobe_one_writes_iff_zero (f : HwprobeShared.__riscv_hwprobe_t K)
    key0 value0 (m : machine K) :
  ENOENT ≠ 0 ->
  let '((rc, p), (mem1, k1)) := f (probe_request key0) (mem m) (kernel m) in
  let '(r, m') := hwprobe_one (Some f) key0 value0 m in
  (existsb (is_store_at value0) (new_events m m') = true <-> r = 0)
  /\ (r = 0 ->
        mem m' = <[value0 := value p]> mem1
        /\ mem m' !! value0 = Some (value p))
  /\ (r ≠ 0 -> mem m' = mem1)
  /\ (r ≠ 0 -> mem1 !! value0 = mem m !! value0 ->
        mem m' !! value0 = mem m !! value0).
Proof.
  intros Hne.
  destruct (f (probe_request key0) (mem m) (kernel m))
    as [[rc p] [mem1 k1]] eqn:Hf.
  rewrite (shared_run f key0 value0 m rc p mem1 k1 Hf).
  destruct (decide (rc ≠ 0)) as [Hrc|Hrc].
  - unfold HwprobeShared.returned. rewrite shared_new_events. cbn.
    split; [split; [discriminate | contradiction]|].
    split; [intros; contradiction|].
    split; [reflexivity | intros _ H; exact H].
  - destruct (decide (key p < 0)).
    + unfold HwprobeShared.returned. rewrite shared_new_events. cbn.
      split; [split; [discriminate | contradiction]|].
      split; [intros; contradiction|].
      split; [reflexivity | intros _ H; exact H].
    + rewrite <- app_assoc, shared_new_events. cbn.
      rewrite bool_decide_eq_true_2 by reflexivity.
      split; [split; reflexivity|].
      split; [intros _; split; [reflexivity | apply lookup_insert_eq]|].
      split; intros Hz; contradiction.
Qed.

End Facts.

(** C3, as the specification words it, fails: a probe function that writes
    the object the value pointer names and then reports a failure makes the
    helper return non-zero with the memory at the value pointer changed. *)
Lemma nonzero_return_with_value_changed :
  let '(r, m') :=
    HwprobeShared.__riscv_hwprobe_one 38 2 unit
      (Some (HwprobeShared.scribbling_probe 64)) 4 64 demo_machine in
  r ≠ 0
  /\ mem demo_machine !! 64 = Some (Vlong 7)
  /\ mem m' !! 64 = Some (Vlong 99)
  /\ mem m' !! 64 ≠ mem demo_machine !! 64.
Proof.
  cbn. split; [discriminate|].
  split; [reflexivity|]. split; [reflexivity | discriminate].
Qed.

Lemma hwprobe_one_writes_iff_zero_witness :
  let '((rc, p), (mem1, k1)) :=
    HwprobeShared.counting_probe 72 (probe_request 4) (mem demo_machine)
      (kernel demo_machine) in
  let '(r, m') :=
    HwprobeShared.__riscv_hwprobe_one 38 2 unit
      (Some (HwprobeShared.counting_probe 72)) 4 64 demo_machine in
  (existsb (is_store_at 64) (new_events demo_machine m') = true <-> r = 0)
  /\ (r = 0 ->
        mem m' = <[64 := value p]> mem1 /\ mem m' !! 64 = Some (value p))
  /\ (r ≠ 0 -> mem m' = mem1)
  /\ (r ≠ 0 -> mem1 !! 64 = mem demo_machine !! 64 ->
        mem m' !! 64 = mem demo_machine !! 64).
Proof.
  apply (hwprobe_one_writes_iff_zero 38 2 unit
           (HwprobeShared.counting_probe 72) 4 64 demo_machine).
  discriminate.
Defined.

End HwprobeSharedFacts.

(* ===================================================================== *)
(** ** Which functions of the headers have a body *)
(* ===================================================================== *)

Module HeadersFacts.
Import Headers Hwprobe.



End HeadersFacts.

(* ===================================================================== *)
(** ** Properties of the stream layer *)
(* ===================================================================== *)

Module StreamFacts.
Import StreamIO.

Open Scope nat_scope.

Section Generic.

Context {D : Type} `{Device D}.

Local Abbreviation Stream := (Stream D).

(** *** The retry loop *)

Lemma write_retry_spec fuel :
  forall (d : D) (togo : list byte) (stalled : bool) (tr : list DevEvent),
  2 * length togo - (if stalled then 1 else 0) <= fuel ->
  exists d' rest evs out,
    write_retry fuel d togo stalled tr = (d', rest, tr ++ evs, out)
    /\ length evs <= 2 * length togo - (if stalled then 1 else 0)
    /\ Forall (fun e => is_write e = true) evs
    /\ length rest <= length togo
    /\ retry_post stalled togo rest evs out.
Proof.
  induction fuel as [|fuel IH]; intros d togo stalled tr Hfuel.
  - destruct togo as [|b togo].
    + exists d, [], [], RetryDone. cbn. rewrite app_nil_r.
      repeat split; auto.
    + exfalso. cbn [length] in Hfuel. destruct stalled; lia.
  - destruct togo as [|b togo].
    + exists d, [], [], RetryDone. cbn. rewrite app_nil_r.
      repeat split; auto.
    + cbn [write_retry].
      destruct (deviceWrite d (b :: togo)) as [r d'] eqn:Hw.
      destruct r as [[|w]|c].
      * destruct stalled.
        -- exists d', (b :: togo), [EvWrite (b :: togo) (DevOk 0)],
             (RetryFailed NoProgress).
           repeat split; auto.
           ++ cbn [length]. lia.
           ++ exists [], (b :: togo). split; [reflexivity|]. left. auto.
        -- destruct (IH d' (b :: togo) true
                       (tr ++ [EvWrite (b :: togo) (DevOk 0)]))
             as (d'' & rest & evs & out & Heq & Hlen & Hall & Hrest & Hpost).
           { cbn [length] in *. lia. }
           exists d'', rest, (EvWrite (b :: togo) (DevOk 0) :: evs), out.
           rewrite Heq, <- app_assoc. cbn [app].
           repeat split; auto.
           ++ cbn [length] in *. lia.
           ++ destruct out as [|[c|]|]; cbn in *; auto.
              ** destruct Hpost as (pre & data & ->).
                 exists (EvWrite (b :: togo) (DevOk 0) :: pre), data.
                 reflexivity.
              ** destruct Hpost as (pre & data & -> & Hcase).
                 exists (EvWrite (b :: togo) (DevOk 0) :: pre), data.
                 split; [reflexivity|]. right.
                 destruct Hcase as [(-> & _ & ->)|(pre' & ->)].
                 --- exists []. reflexivity.
                 --- exists (EvWrite (b :: togo) (DevOk 0) :: pre').
                     reflexivity.
      * destruct (IH d' (drop (S w) (b :: togo)) false
                    (tr ++ [EvWrite (b :: togo) (DevOk (S w))]))
          as (d'' & rest & evs & out & Heq & Hlen & Hall & Hrest & Hpost).
        { rewrite length_drop. cbn [length] in *. destruct stalled; lia. }
        exists d'', rest, (EvWrite (b :: togo) (DevOk (S w)) :: evs), out.
        rewrite Heq, <- app_assoc. cbn [app].
        rewrite length_drop in Hlen, Hrest.
        repeat split; auto.
        -- cbn [length] in *. destruct stalled; lia.
        -- cbn [length] in *. lia.
        -- destruct out as [|[c|]|]; cbn in *; auto.
           ++ destruct Hpost as (pre & data & ->).
              exists (EvWrite (b :: togo) (DevOk (S w)) :: pre), data.
              reflexivity.
           ++ destruct Hpost as (pre & data & -> & Hcase).
              exists (EvWrite (b :: togo) (DevOk (S w)) :: pre), data.
              split; [reflexivity|]. right.
              destruct Hcase as [(_ & Hf & _)|(pre' & ->)]; [discriminate|].
              exists (EvWrite (b :: togo) (DevOk (S w)) :: pre').
              reflexivity.
      * exists d', (b :: togo), [EvWrite (b :: togo) (DevFail c)],
          (RetryFailed (RawError c)).
        repeat split; auto.
        -- cbn [length]. destruct stalled; lia.
        -- exists [], (b :: togo). reflexivity.
Qed.

(** What [flush_pending] comes to, by the outcome of its loop. *)
Lemma flush_pending_eq (s : Stream) :
  match handle s with
  | None => flush_pending s = (s, Err UsageError)
  | Some d =>
      exists d' rest evs,
        length evs <= 2 * length (pending s)
        /\ Forall (fun e => is_write e = true) evs
        /\ length rest <= length (pending s)
        /\ ((rest = []
             /\ flush_pending s = (flushed s d' [] (trace s ++ evs), Ok tt))
            \/ (exists f,
                  retry_post false (pending s) rest evs (RetryFailed f)
                  /\ flush_pending s
                     = (set_error f (flushed s d' rest (trace s ++ evs)),
                        Err (DeviceError f))))
  end.
Proof.
  unfold flush_pending. destruct (handle s) as [d|]; [|reflexivity].
  destruct (write_retry_spec (retry_budget (pending s)) d (pending s) false
              (trace s))
    as (d' & rest & evs & out & Heq & Hlen & Hall & Hrest & Hpost).
  { unfold retry_budget. lia. }
  rewrite Heq. exists d', rest, evs.
  split; [lia|]. split; [exact Hall|]. split; [exact Hrest|].
  destruct out as [|f|]; cbn in Hpost.
  - left. subst rest. auto.
  - right. exists f. auto.
  - contradiction.
Qed.

(** *** What every operation keeps *)

Lemma keeps_refl s : keeps s s.
Proof.
  split; [|auto]. exists []. rewrite app_nil_r. cbn.
  rewrite orb_false_r. auto.
Qed.

Lemma keeps_trans s1 s2 s3 : keeps s1 s2 -> keeps s2 s3 -> keeps s1 s3.
Proof.
  intros [(e1 & Ht1 & He1) Hk1] [(e2 & Ht2 & He2) Hk2]. split; [|auto].
  exists (e1 ++ e2). rewrite Ht2, Ht1, He2, He1, existsb_app, app_assoc.
  rewrite orb_assoc. auto.
Qed.

Lemma keeps_intro s s' evs :
  trace s' = trace s ++ evs ->
  eof_flag s' = eof_flag s || existsb is_empty_read evs ->
  (DeviceContract D -> ok s -> ok s') ->
  keeps s s'.
Proof. intros Ht He Hk. split; [exists evs|]; auto. Qed.

Lemma keeps_quiet s s' :
  trace s' = trace s -> eof_flag s' = eof_flag s ->
  (DeviceContract D -> ok s -> ok s') -> keeps s s'.
Proof.
  intros Ht He Hk. apply (keeps_intro s s' []); auto.
  - rewrite app_nil_r. exact Ht.
  - cbn. rewrite orb_false_r. exact He.
Qed.

Lemma writes_not_empty_reads evs :
  Forall (fun e => is_write e = true) evs ->
  existsb is_empty_read evs = false.
Proof.
  induction 1 as [|e evs He _ IH]; [reflexivity|].
  cbn. rewrite IH. destruct e; try discriminate He. reflexivity.
Qed.

Lemma length_pending (s : Stream) : length (pending s) <= write_end s.
Proof. unfold pending. rewrite length_take. lia. Qed.

Lemma flush_pending_keeps s s' r :
  flush_pending s = (s', r) ->
  keeps s s'
  /\ capacity s' = capacity s /\ mode s' = mode s
  /\ direction s' = direction s
  /\ (r = Ok tt -> write_end s' = 0 /\ buffer s' = []).
Proof.
  intros Hfp. pose proof (flush_pending_eq s) as Hcase.
  pose proof (length_pending s) as Hp.
  destruct (handle s) as [d|] eqn:Hh.
  - destruct Hcase as (d' & rest & evs & Hlen & Hall & Hrest & Hcase).
    destruct Hcase as [(-> & Heq)|(f & Hpost & Heq)];
      rewrite Heq in Hfp; inversion Hfp; subst s' r; clear Hfp.
    + split; [|cbn; auto 10].
      apply (keeps_intro _ _ evs); cbn; auto.
      * rewrite writes_not_empty_reads by exact Hall.
        rewrite orb_false_r. reflexivity.
      * intros _ [[? ?] ?]. unfold ok, cursor_inv. cbn. lia.
    + split; [|cbn; repeat split; auto; intros; discriminate].
      apply (keeps_intro _ _ evs); cbn; auto.
      * rewrite writes_not_empty_reads by exact Hall.
        rewrite orb_false_r. reflexivity.
      * intros _ [[? ?] ?]. unfold ok, cursor_inv. cbn. lia.
  - rewrite Hcase in Hfp. inversion Hfp; subst.
    split; [apply keeps_refl|]. repeat split; auto; intros; discriminate.
Qed.

Lemma refill_keeps s : keeps s (fst (refill s)).
Proof.
  unfold refill. destruct (handle s) as [d|]; [|apply keeps_refl].
  destruct (deviceRead d (capacity s)) as [r d'] eqn:Hr.
  destruct r as [[|b bs]|c]; cbn [fst].
  - apply (keeps_intro _ _ [EvRead (capacity s) (DevOk [])]); cbn; auto.
    + rewrite !orb_true_r. reflexivity.
  - apply (keeps_intro _ _ [EvRead (capacity s) (DevOk (b :: bs))]);
      cbn; auto.
    + rewrite orb_false_r. reflexivity.
    + intros Hc [[? ?] ?]. apply deviceRead_bound in Hr.
      unfold ok, cursor_inv. cbn in *. lia.
  - apply (keeps_intro _ _ [EvRead (capacity s) (DevFail c)]); cbn; auto.
    + rewrite orb_false_r. reflexivity.
Qed.

Lemma readByte_keeps s : keeps s (fst (readByte s)).
Proof.
  unfold readByte. destruct (check s); [apply keeps_refl|].
  destruct (direction s).
  - apply refill_keeps.
  - destruct (pending s !! read_pos s) as [b|] eqn:Hb; [|apply refill_keeps].
    apply keeps_quiet; cbn; auto.
    intros _ [[? ?] ?]. apply lookup_lt_Some in Hb.
    pose proof (length_pending s). unfold ok, cursor_inv. cbn. lia.
  - destruct (flush_pending s) as [s' r] eqn:Hfp.
    apply flush_pending_keeps in Hfp as (Hk & _).
    destruct r; cbn [fst]; [|exact Hk].
    eapply keeps_trans; [exact Hk|apply refill_keeps].
Qed.

Lemma readBytes_keeps n : forall s, keeps s (fst (readBytes n s)).
Proof.
  induction n as [|n IH]; intros s; cbn [readBytes]; [apply keeps_refl|].
  pose proof (readByte_keeps s) as Hk.
  destruct (readByte s) as [s' [b| |e]]; cbn [fst] in *; auto.
  specialize (IH s'). destruct (readBytes n s') as [s'' bs]. cbn [fst] in *.
  eapply keeps_trans; eauto.
Qed.

Lemma write_tail_keeps b (s2 : Stream) :
  (ok s2 -> write_end s2 < capacity s2) ->
  keeps s2
    (fst (if flushes_after (mode (append_byte b s2)) b
          then flush_pending (append_byte b s2)
          else (append_byte b s2, Ok tt))).
Proof.
  intros Hroom.
  assert (Hk : keeps s2 (append_byte b s2)).
  { apply keeps_quiet; cbn; auto.
    intros _ Hok. pose proof (Hroom Hok). destruct Hok as [[? ?] ?].
    unfold ok, cursor_inv. cbn. lia. }
  destruct (flushes_after _ b); [|exact Hk].
  destruct (flush_pending (append_byte b s2)) as [s4 r] eqn:Hfp.
  apply flush_pending_keeps in Hfp as (Hk' & _).
  eapply keeps_trans; eauto.
Qed.

Lemma writeByte_keeps b s : keeps s (fst (writeByte b s)).
Proof.
  unfold writeByte. destruct (check s); [apply keeps_refl|].
  set (s1 := to_writing s).
  assert (H1 : keeps s s1).
  { subst s1. unfold to_writing.
    destruct (direction s); apply keeps_quiet; cbn; auto;
      intros _ [[? ?] ?]; unfold ok, cursor_inv; cbn; lia. }
  destruct (decide (write_end s1 = capacity s1)) as [Hfull|Hroom].
  - destruct (flush_pending s1) as [s2 r] eqn:Hfp.
    apply flush_pending_keeps in Hfp as (Hk & Hcap & _ & _ & Hdone).
    destruct r as [[]|e]; [|eapply keeps_trans; eauto].
    destruct (Hdone eq_refl) as [Hwe _].
    eapply keeps_trans; [exact H1|]. eapply keeps_trans; [exact Hk|].
    apply write_tail_keeps. intros [_ ?]. lia.
  - eapply keeps_trans; [exact H1|].
    apply write_tail_keeps. intros [[_ ?] _]. lia.
Qed.

Lemma writeBytes_keeps seq : forall s, keeps s (fst (writeBytes seq s)).
Proof.
  induction seq as [|b seq IH]; intros s; cbn [writeBytes];
    [apply keeps_refl|].
  pose proof (writeByte_keeps b s) as Hk.
  destruct (writeByte b s) as [s' [[]|e]]; cbn [fst] in *; auto.
  specialize (IH s'). destruct (writeBytes seq s') as [s'' [n|e]];
    cbn [fst] in *; eapply keeps_trans; eauto.
Qed.

Lemma flush_keeps s : keeps s (fst (flush s)).
Proof.
  unfold flush. destruct (check s); [apply keeps_refl|].
  destruct (direction s); try apply keeps_refl.
  destruct (flush_pending s) as [s' r] eqn:Hfp.
  apply flush_pending_keeps in Hfp as (Hk & _). exact Hk.
Qed.

(** The flush that [seek] and [close] start with. *)
Lemma flush_if_writing_keeps (s : Stream) s1 r1 :
  match direction s with
  | Writing => flush_pending s
  | _ => (s, Ok tt)
  end = (s1, r1) ->
  keeps s s1.
Proof.
  destruct (direction s); intros Heq;
    try (inversion Heq; subst; apply keeps_refl).
  apply flush_pending_keeps in Heq as (Hk & _). exact Hk.
Qed.

Lemma seek_keeps offset whence s : keeps s (fst (seek offset whence s)).
Proof.
  unfold seek. destruct (check s); [apply keeps_refl|].
  destruct (match direction s with Writing => _ | _ => _ end)
    as [s1 r1] eqn:H1.
  apply flush_if_writing_keeps in H1.
  destruct r1 as [[]|e]; [|exact H1].
  destruct (handle s1) as [d|]; [|exact H1].
  destruct (deviceSeek d offset whence) as [r d'] eqn:Hs.
  eapply keeps_trans; [exact H1|].
  destruct r as [p|c]; cbn [fst].
  - apply (keeps_intro _ _ [EvSeek offset whence (DevOk p)]); cbn; auto.
    + rewrite orb_false_r. reflexivity.
    + intros _ [[? ?] ?]. unfold ok, cursor_inv. cbn. lia.
  - apply (keeps_intro _ _ [EvSeek offset whence (DevFail c)]); cbn; auto.
    + rewrite orb_false_r. reflexivity.
    + intros _ [[? ?] ?]. unfold ok, cursor_inv. cbn. lia.
Qed.

Lemma pushBack_keeps b s : keeps s (fst (pushBack b s)).
Proof.
  unfold pushBack. destruct (check s); [apply keeps_refl|].
  destruct (direction s); try apply keeps_refl.
  destruct (read_pos s) as [|k] eqn:Hrp; [apply keeps_refl|].
  apply keeps_quiet; cbn; auto.
  intros _ [[? ?] ?]. unfold ok, cursor_inv. cbn. lia.
Qed.

Lemma close_keeps s : keeps s (fst (close s)).
Proof.
  unfold close. destruct (check s); [apply keeps_refl|].
  destruct (match direction s with Writing => _ | _ => _ end)
    as [s1 r1] eqn:H1.
  apply flush_if_writing_keeps in H1.
  destruct (handle s1) as [d|]; [|exact H1].
  eapply keeps_trans; [exact H1|].
  assert (Hk : forall s2 : Stream,
             trace s2 = trace s1 ++ [EvClose (deviceClose d)] ->
             eof_flag s2 = eof_flag s1 -> capacity s2 = capacity s1 ->
             read_pos s2 = 0 -> write_end s2 = 0 -> keeps s1 s2).
  { intros s2 Ht He Hc Hr Hw.
    apply (keeps_intro _ _ [EvClose (deviceClose d)]); auto.
    - cbn. rewrite orb_false_r. exact He.
    - intros _ [[? ?] ?]. unfold ok, cursor_inv. lia. }
  destruct r1 as [[]|e]; [destruct (deviceClose d) eqn:Hc|];
    cbn [fst]; apply Hk; cbn; rewrite ?Hc; reflexivity.
Qed.

Lemma exec_keeps o s : o <> OpClearError -> keeps s (exec o s).
Proof.
  intros Ho. destruct o; cbn [exec];
    auto using readByte_keeps, readBytes_keeps, writeByte_keeps,
      writeBytes_keeps, flush_keeps, seek_keeps, pushBack_keeps, close_keeps.
  contradiction.
Qed.

Lemma clearError_ok (s : Stream) : ok s -> ok (clearError s).
Proof. intros Hok. exact Hok. Qed.

Lemma open_ok source m cap (s : Stream) : open source m cap = Ok s -> ok s.
Proof.
  unfold open. destruct source as [d|c]; [|discriminate].
  intros [= <-]. unfold ok, cursor_inv. cbn.
  destruct (decide (cap = 0)); unfold BUFSIZ; lia.
Qed.

Lemma reachable_ok `{!DeviceContract D} (s : Stream) : reachable s -> ok s.
Proof.
  induction 1 as [source m cap s Hopen|o s _ IH].
  - eapply open_ok; eauto.
  - assert (Hk : o <> OpClearError -> ok (exec o s)).
    { intros Ho. apply (exec_keeps o s Ho); auto. }
    destruct o; try (apply Hk; discriminate).
    apply clearError_ok. exact IH.
Qed.


(** *** Streams that hold pending output *)

Lemma holds_check (s : Stream) d tr bs : holds s d tr bs -> check s = None.
Proof. intros (Hh & He & _). unfold check. rewrite Hh, He. reflexivity. Qed.

Lemma holds_to_writing (s : Stream) d tr bs :
  holds s d tr bs ->
  holds (to_writing s) d tr bs /\ direction (to_writing s) = Writing
  /\ mode (to_writing s) = mode s /\ capacity (to_writing s) = capacity s.
Proof.
  intros (Hh & He & Ht & Hp & Hw & Hd). unfold to_writing, holds.
  destruct (direction s) eqn:Hdir; cbn; repeat split; auto; try discriminate.
  - rewrite (Hd eq_refl). reflexivity.
  - rewrite (Hd eq_refl). reflexivity.
Qed.

Lemma holds_append b (s : Stream) d tr bs :
  holds s d tr bs -> direction s = Writing ->
  holds (append_byte b s) d tr (bs ++ [b])
  /\ direction (append_byte b s) = Writing
  /\ mode (append_byte b s) = mode s
  /\ capacity (append_byte b s) = capacity s.
Proof.
  intros (Hh & He & Ht & Hp & Hw & Hd) Hdir. unfold holds, append_byte.
  cbn. repeat split; auto.
  - unfold pending. cbn. fold (pending s). rewrite Hp, Hw.
    apply take_ge. rewrite length_app. cbn. lia.
  - rewrite Hw, length_app. cbn. lia.
  - rewrite Hdir. discriminate.
Qed.

Lemma holds_flush_pending (s : Stream) d tr bs :
  holds s d tr bs ->
  flush_pending s =
    let '(d', rest, tr', out) :=
      write_retry (retry_budget bs) d bs false tr in
    match out with
    | RetryDone => (flushed s d' rest tr', Ok tt)
    | RetryFailed f =>
        (set_error f (flushed s d' rest tr'), Err (DeviceError f))
    | RetryOutOfFuel =>
        (set_error NoProgress (flushed s d' rest tr'),
         Err (DeviceError NoProgress))
    end.
Proof.
  intros (Hh & He & Ht & Hp & Hw & Hd). unfold flush_pending.
  rewrite Hh, Hp, Ht. reflexivity.
Qed.

Lemma holds_flushed (s : Stream) d tr bs d' tr' :
  holds s d tr bs -> direction s = Writing ->
  holds (flushed s d' [] tr') d' tr' [].
Proof.
  intros (Hh & He & Ht & Hp & Hw & Hd) Hdir. unfold holds, flushed. cbn.
  repeat split; auto.
Qed.

(** With room in the buffer, [writeByte] appends and then applies the
    mode's flush rule. *)
Lemma writeByte_room b (s : Stream) d tr bs :
  holds s d tr bs -> length bs < capacity s ->
  exists s3,
    holds s3 d tr (bs ++ [b]) /\ direction s3 = Writing
    /\ mode s3 = mode s /\ capacity s3 = capacity s
    /\ writeByte b s =
       if flushes_after (mode s) b then flush_pending s3 else (s3, Ok tt).
Proof.
  intros Hs Hroom.
  destruct (holds_to_writing s d tr bs Hs) as (Hs1 & Hdir & Hm & Hc).
  destruct (holds_append b _ _ _ _ Hs1 Hdir) as (Hs3 & Hdir3 & Hm3 & Hc3).
  exists (append_byte b (to_writing s)).
  split; [exact Hs3|]. split; [exact Hdir3|].
  split; [congruence|]. split; [congruence|].
  unfold writeByte. rewrite (holds_check s d tr bs Hs).
  destruct Hs1 as (_ & _ & _ & _ & Hw & _).
  destruct (decide (write_end (to_writing s) = capacity (to_writing s)))
    as [Hfull|_]; [lia|].
  cbn zeta. rewrite Hm3, Hm. reflexivity.
Qed.

(** The first device call of a retry loop that has something to write. *)
Lemma write_retry_first fuel (d : D) b togo tr :
  2 * length (b :: togo) <= fuel ->
  exists more,
    snd (fst (write_retry fuel d (b :: togo) false tr))
    = tr ++ EvWrite (b :: togo) (fst (deviceWrite d (b :: togo))) :: more.
Proof.
  intros Hfuel. destruct fuel as [|fuel]; [cbn in Hfuel; lia|].
  cbn [write_retry].
  destruct (deviceWrite d (b :: togo)) as [r d'] eqn:Hw. cbn [fst].
  destruct r as [[|w]|c].
  - destruct (write_retry_spec fuel d' (b :: togo) true
                (tr ++ [EvWrite (b :: togo) (DevOk 0)]))
      as (d'' & rest & evs & out & -> & _).
    { cbn [length] in *. lia. }
    exists evs. cbn. rewrite <- app_assoc. reflexivity.
  - destruct (write_retry_spec fuel d' (drop (S w) (b :: togo)) false
                (tr ++ [EvWrite (b :: togo) (DevOk (S w))]))
      as (d'' & rest & evs & out & -> & _).
    { rewrite length_drop. cbn [length] in *. lia. }
    exists evs. cbn. rewrite <- app_assoc. reflexivity.
  - exists []. reflexivity.
Qed.

(** A device that takes all the bytes at once ends the loop in one round. *)
Lemma write_retry_whole fuel (d d' : D) togo n tr :
  togo <> [] -> deviceWrite d togo = (DevOk n, d') -> length togo <= n ->
  write_retry (S fuel) d togo false tr
  = (d', [], tr ++ [EvWrite togo (DevOk n)], RetryDone).
Proof.
  intros Hne Hw Hn. destruct togo as [|b togo]; [congruence|].
  cbn [write_retry]. rewrite Hw.
  destruct n as [|n]; [cbn in Hn; lia|].
  rewrite drop_ge by lia. destruct fuel; reflexivity.
Qed.

Lemma holds_flush_pending_trace (s : Stream) d tr bs :
  holds s d tr bs ->
  trace (fst (flush_pending s))
  = snd (fst (write_retry (retry_budget bs) d bs false tr))
  /\ is_Some (handle (fst (flush_pending s)))
  /\ eof_flag (fst (flush_pending s)) = eof_flag s.
Proof.
  intros Hs. rewrite (holds_flush_pending s d tr bs Hs).
  destruct (write_retry _ d bs false tr) as [[[d' rest] tr'] out].
  destruct out; cbn; eauto.
Qed.

(** *** The claims *)

(** *** The retry loop, by the answers of the device *)

















Lemma verdict_err {A B} (e : Error) evs :
  verdict (@Err A e) evs -> verdict (@Err B e) evs.
Proof. intros Hv. exact Hv. Qed.









(** C9: every Stream obtained from [open] by public operations satisfies
    [read_pos <= write_end <= capacity], and so does the Stream any public
    operation turns it into. *)
Theorem cursor_invariant_always `{!DeviceContract D} (s : Stream) :
  reachable s -> cursor_inv s /\ forall o, cursor_inv (exec o s).
Proof.
  intros Hr. split.
  - apply reachable_ok. exact Hr.
  - intros o. apply reachable_ok. apply reach_exec. exact Hr.
Qed.


(** C8, amended: on an open, error-free line-buffered Stream whose buffer
    is empty and has room for 3 bytes, over a device that takes the 3
    bytes in one write, writing "ab\n" makes exactly one device call, the
    write of those 3 bytes; writing "ab" makes no device call and leaves
    "ab" pending, and the first device call of a following [flush] or
    [close] is the write of "ab". *)
Theorem line_buffered_flush_on_newline (s : Stream) (d d3 : D) :
  mode s = LineBuffered -> handle s = Some d -> error_flag s = false ->
  write_end s = 0 -> 3 <= capacity s ->
  deviceWrite d ab_newline = (DevOk 3, d3) ->
  line_flush_property s
  /\ new_events s (fst (writeBytes ab_newline s))
     = [EvWrite ab_newline (DevOk 3)]
  /\ new_events s (fst (writeBytes ab s)) = []
  /\ pending (fst (writeBytes ab s)) = ab
  /\ (exists more,
        new_events s (fst (flush (fst (writeBytes ab s))))
        = EvWrite ab (fst (deviceWrite d ab)) :: more)
  /\ (exists more,
        new_events s (fst (close (fst (writeBytes ab s))))
        = EvWrite ab (fst (deviceWrite d ab)) :: more).
Proof.
  intros Hm Hh He Hw Hc Hd.
  assert (H0 : holds s d (trace s) []).
  { unfold holds, pending. rewrite Hw. cbn. auto 10. }
  destruct (writeByte_room x61 s d (trace s) [] H0)
    as (s1 & H1 & Hd1 & Hm1 & Hc1 & E1); [cbn; lia|].
  rewrite Hm in E1. cbn in H1.
  change (flushes_after LineBuffered x61) with false in E1. cbv iota in E1.
  destruct (writeByte_room x62 s1 d (trace s) [x61] H1)
    as (s2 & H2 & Hd2 & Hm2 & Hc2 & E2); [cbn; lia|].
  rewrite Hm1, Hm in E2. cbn in H2.
  change (flushes_after LineBuffered x62) with false in E2. cbv iota in E2.
  destruct (writeByte_room newline s2 d (trace s) [x61; x62] H2)
    as (s3 & H3 & Hd3 & Hm3 & Hc3 & E3); [cbn; lia|].
  rewrite Hm2, Hm1, Hm in E3.
  change ([x61; x62] ++ [newline]) with ab_newline in H3.
  change (flushes_after LineBuffered newline) with true in E3.
  rewrite (holds_flush_pending s3 d (trace s) _ H3) in E3.
  change (retry_budget ab_newline) with 6 in E3.
  rewrite (write_retry_whole 5 d d3 ab_newline 3 (trace s)) in E3;
    [|discriminate|exact Hd|cbn; lia].
  assert (Eab : writeBytes ab s = (s2, Ok 2)).
  { unfold ab. cbn [writeBytes]. rewrite E1. cbn [writeBytes].
    rewrite E2. reflexivity. }
  assert (Eabn : writeBytes ab_newline s
                 = (flushed s3 d3 []
                      (trace s ++ [EvWrite ab_newline (DevOk 3)]), Ok 3)).
  { unfold ab_newline at 1. cbn [writeBytes]. rewrite E1. cbn [writeBytes].
    rewrite E2. cbn [writeBytes]. rewrite E3. reflexivity. }
  assert (Hn2 : new_events s s2 = []).
  { unfold new_events. destruct H2 as (_ & _ & -> & _). apply drop_all. }
  assert (Hflush : exists more,
             trace (fst (flush_pending s2))
             = trace s ++ EvWrite ab (fst (deviceWrite d ab)) :: more).
  { destruct (holds_flush_pending_trace s2 d (trace s) _ H2) as (-> & _).
    apply write_retry_first. cbn. lia. }
  rewrite Eab, Eabn. cbn [fst].
  assert (Hone : new_events s
                   (flushed s3 d3 []
                      (trace s ++ [EvWrite ab_newline (DevOk 3)]))
                 = [EvWrite ab_newline (DevOk 3)]).
  { unfold new_events. cbn. apply drop_app_length. }
  split; [|split; [exact Hone|split; [exact Hn2|split]]].
  - split.
    + exists ab_newline, (DevOk 3). rewrite Eabn. cbn [fst].
      rewrite Hone. split; reflexivity.
    + rewrite Eab. cbn [fst]. rewrite Hn2. reflexivity.
  - destruct H2 as (_ & _ & _ & Hp & _). exact Hp.
  - split.
    + destruct Hflush as (more & Hf). exists more.
      unfold flush. rewrite (holds_check s2 d (trace s) _ H2), Hd2.
      unfold new_events. rewrite Hf. apply drop_app_length.
    + destruct Hflush as (more & Hf).
      destruct (holds_flush_pending_trace s2 d (trace s) _ H2)
        as (_ & [d' Hh'] & _).
      unfold close. rewrite (holds_check s2 d (trace s) _ H2), Hd2.
      destruct (flush_pending s2) as [s' r1]. cbn [fst] in *.
      rewrite Hh'.
      exists (more ++ [EvClose (deviceClose d')]).
      assert (Ht : forall s4 : Stream,
                trace s4 = trace s' ++ [EvClose (deviceClose d')] ->
                new_events s s4
                = EvWrite ab (fst (deviceWrite d ab))
                    :: more ++ [EvClose (deviceClose d')]).
      { intros s4 Hs4. unfold new_events. rewrite Hs4, Hf, <- app_assoc.
        apply drop_app_length. }
      destruct r1 as [[]|e]; [destruct (deviceClose d') eqn:Hcl|];
        cbn [fst]; apply Ht; cbn; rewrite ?Hcl; reflexivity.
Qed.

End Generic.

(** *** Streams over the in-memory file *)

#[global] Instance MemFile_contract : DeviceContract MemFile.
Proof.
  constructor. intros d n bs d' Hr. cbn in Hr. unfold mem_read in Hr.
  inversion Hr; subst. rewrite length_take. lia.
Qed.

Lemma overwrite_take (c : list byte) p l :
  p <= length c -> take (p + length l) (overwrite c p l) = take p c ++ l.
Proof.
  intros Hp. unfold overwrite.
  replace (p - length c) with 0 by lia. cbn [replicate app].
  rewrite take_app_add' by (rewrite length_take; lia).
  rewrite take_app_length. reflexivity.
Qed.

Lemma overwrite_length (c : list byte) p l :
  p <= length c -> p + length l <= length (overwrite c p l).
Proof.
  intros Hp. unfold overwrite. rewrite !length_app, length_take. lia.
Qed.

(** On such a file the retry loop writes everything, one chunk a round. *)
Lemma mem_write_retry fuel :
  forall (f : MemFile) (togo : list byte) (tr : list DevEvent),
  file_ok f -> length togo <= fuel ->
  exists f' tr',
    write_retry fuel f togo false tr = (f', [], tr', RetryDone)
    /\ file_ok f' /\ chunk f' = chunk f
    /\ take (cursor f') (content f') = take (cursor f) (content f) ++ togo.
Proof.
  induction fuel as [|fuel IH]; intros f togo tr Hf Hlen.
  - destruct togo; [|cbn in Hlen; lia].
    exists f, tr. rewrite app_nil_r. auto.
  - destruct togo as [|b togo].
    { exists f, tr. rewrite app_nil_r. auto. }
    destruct Hf as (Hw & Hch & Hcur).
    cbn [write_retry deviceWrite MemFile_device]. unfold mem_write.
    rewrite Hw.
    destruct (chunk f) as [|k] eqn:Hk; [lia|].
    set (w := take (S k) (b :: togo)).
    assert (Hwlen : length w = S (length (take k togo))) by reflexivity.
    rewrite Hwlen.
    set (f1 := mkMemFile _ _ _ _).
    destruct (IH f1 (drop (S (length (take k togo))) (b :: togo))
                (tr ++ [EvWrite (b :: togo) (DevOk (S (length (take k togo))))]))
      as (f' & tr' & Heq & Hf' & Hch' & Htake).
    { subst f1. unfold file_ok. cbn [writable chunk cursor content].
      split; [reflexivity|]. split; [lia|].
      rewrite <- Hwlen. apply overwrite_length. exact Hcur. }
    { rewrite length_drop. cbn [length] in *. lia. }
    exists f', tr'. split; [exact Heq|]. split; [exact Hf'|].
    split; [rewrite Hch'; reflexivity|].
    rewrite Htake. subst f1. cbn [cursor content].
    rewrite <- Hwlen, overwrite_take by exact Hcur.
    rewrite <- app_assoc. f_equal.
    subst w. rewrite length_take.
    destruct (decide (S k <= length (b :: togo))) as [Hle|Hgt].
    + rewrite Nat.min_l by exact Hle. apply take_drop.
    + rewrite Nat.min_r by lia. rewrite take_ge, drop_ge by lia.
      apply app_nil_r.
Qed.

Lemma holds_trace (s : Stream MemFile) f tr bs :
  holds s f tr bs -> holds s f (trace s) bs.
Proof. intros (Hh & He & Ht & Hrest). unfold holds. auto. Qed.

Lemma flush_pending_mem (s : Stream MemFile) f tr bs :
  holds s f tr bs -> file_ok f ->
  exists f' tr',
    flush_pending s = (flushed s f' [] tr', Ok tt)
    /\ file_ok f'
    /\ take (cursor f') (content f') = take (cursor f) (content f) ++ bs.
Proof.
  intros Hs Hf. rewrite (holds_flush_pending s f tr bs Hs).
  destruct (mem_write_retry (retry_budget bs) f bs tr Hf)
    as (f' & tr' & -> & Hf' & _ & Htake).
  { unfold retry_budget. lia. }
  exists f', tr'. auto.
Qed.

Lemma write_tail_mem b (s2 : Stream MemFile) f tr bs :
  holds s2 f tr bs -> direction s2 = Writing -> file_ok f ->
  length bs < capacity s2 ->
  exists s',
    (if flushes_after (mode (append_byte b s2)) b
     then flush_pending (append_byte b s2)
     else (append_byte b s2, Ok tt)) = (s', Ok tt)
    /\ writing s' (take (cursor f) (content f) ++ bs ++ [b])
    /\ capacity s' = capacity s2 /\ mode s' = mode s2.
Proof.
  intros Hs Hdir Hf Hroom.
  destruct (holds_append b s2 f tr bs Hs Hdir) as (Hs3 & Hd3 & Hm3 & Hc3).
  destruct (flushes_after (mode (append_byte b s2)) b).
  - destruct (flush_pending_mem _ _ _ _ Hs3 Hf) as (f' & tr' & -> & Hf' & Ht).
    eexists. split; [reflexivity|].
    split; [|split; [exact Hc3|exact Hm3]].
    exists f', []. cbn [capacity flushed trace direction].
    split; [apply (holds_flushed _ f tr (bs ++ [b])); assumption|].
    split; [exact Hf'|]. rewrite Hc3. cbn [length].
    split; [lia|]. split; [lia|]. split; [right; reflexivity|].
    rewrite app_nil_r. exact Ht.
  - eexists. split; [reflexivity|].
    split; [|split; [exact Hc3|exact Hm3]].
    exists f, (bs ++ [b]).
    split; [apply (holds_trace _ _ tr); exact Hs3|].
    split; [exact Hf|]. rewrite Hc3, length_app. cbn [length].
    split; [lia|]. split; [lia|]. split; [left; exact Hd3|reflexivity].
Qed.

Lemma writeByte_mem b (s : Stream MemFile) w :
  writing s w ->
  exists s',
    writeByte b s = (s', Ok tt) /\ writing s' (w ++ [b])
    /\ capacity s' = capacity s /\ mode s' = mode s.
Proof.
  intros (f & bs & Hs & Hf & Hlen & Hcap & _ & <-).
  destruct (holds_to_writing s f _ bs Hs) as (Hs1 & Hd1 & Hm1 & Hc1).
  unfold writeByte. rewrite (holds_check s f _ bs Hs). cbv zeta.
  destruct (decide (write_end (to_writing s) = capacity (to_writing s)))
    as [Hfull|Hroom].
  - destruct (flush_pending_mem _ _ _ _ Hs1 Hf)
      as (f' & tr' & -> & Hf' & Ht).
    destruct (write_tail_mem b (flushed (to_writing s) f' [] tr') f' tr' [])
      as (s' & Heq & Hw & Hc & Hm).
    { apply (holds_flushed _ f (trace s) bs); assumption. }
    { exact Hd1. }
    { exact Hf'. }
    { change (0 < capacity (to_writing s)). lia. }
    change (capacity (flushed (to_writing s) f' [] tr'))
      with (capacity (to_writing s)) in Hc.
    change (mode (flushed (to_writing s) f' [] tr'))
      with (mode (to_writing s)) in Hm.
    exists s'. split; [exact Heq|].
    split; [|split; congruence].
    rewrite Ht in Hw. cbn [app] in Hw. exact Hw.
  - destruct (write_tail_mem b (to_writing s) f (trace s) bs)
      as (s' & Heq & Hw & Hc & Hm); auto.
    { destruct Hs1 as (_ & _ & _ & _ & Hwe & _). lia. }
    exists s'. split; [exact Heq|].
    split; [|split; congruence].
    rewrite <- app_assoc. exact Hw.
Qed.

Lemma writeBytes_mem seq : forall (s : Stream MemFile) w,
  writing s w ->
  exists s',
    writeBytes seq s = (s', Ok (length seq)) /\ writing s' (w ++ seq)
    /\ capacity s' = capacity s /\ mode s' = mode s.
Proof.
  induction seq as [|b seq IH]; intros s w Hw.
  - exists s. rewrite app_nil_r. auto.
  - destruct (writeByte_mem b s w Hw) as (s1 & E1 & Hw1 & Hc1 & Hm1).
    destruct (IH s1 _ Hw1) as (s2 & E2 & Hw2 & Hc2 & Hm2).
    exists s2. cbn [writeBytes length]. rewrite E1, E2.
    split; [reflexivity|]. rewrite <- app_assoc in Hw2.
    split; [exact Hw2|]. split; congruence.
Qed.

Lemma do_writes_mem ws : forall (s : Stream MemFile) w,
  writing s w -> writing (do_writes ws s) (w ++ concat (map written_by ws)).
Proof.
  induction ws as [|op ws IH]; intros s w Hw.
  - cbn. rewrite app_nil_r. exact Hw.
  - cbn [do_writes foldl map concat]. rewrite app_assoc.
    apply IH. destruct op as [b|seq]; cbn [do_write written_by].
    + destruct (writeByte_mem b s w Hw) as (s1 & -> & Hw1 & _). exact Hw1.
    + destruct (writeBytes_mem seq s w Hw) as (s1 & -> & Hw1 & _).
      exact Hw1.
Qed.

Lemma flush_mem (s : Stream MemFile) w :
  writing s w -> flushed_ok (fst (flush s)) w.
Proof.
  intros (f & bs & Hs & Hf & Hlen & Hcap & Hdir & Hw).
  unfold flush. rewrite (holds_check s f _ bs Hs).
  assert (Hidle : direction s <> Writing -> flushed_ok s w).
  { intros Hd. destruct Hdir as [Hd'| ->]; [contradiction|].
    exists f. rewrite app_nil_r in Hw. auto. }
  destruct (direction s) eqn:Hd; try (apply Hidle; discriminate).
  destruct (flush_pending_mem s f _ bs Hs Hf) as (f' & tr' & -> & Hf' & Ht).
  exists f'. cbn [fst flushed trace capacity].
  split; [apply (holds_flushed s f (trace s) bs); assumption|].
  split; [exact Hf'|]. split; [exact Hcap|]. congruence.
Qed.

Lemma seek_start_mem (s : Stream MemFile) w :
  flushed_ok s w ->
  exists rest, reading (fst (seek 0 SeekStart s)) (w ++ rest).
Proof.
  intros (f & Hs & Hf & Hcap & Hw).
  pose proof Hs as (Hh & He & _ & Hp & Hwe & _).
  destruct Hf as (_ & Hch & _).
  assert (Hgo : forall s1 : Stream MemFile,
            handle s1 = Some f -> error_flag s1 = false ->
            capacity s1 = capacity s ->
            exists rest,
              reading
                (fst (let '(r, d') := deviceSeek f 0%Z SeekStart in
                      let s2 :=
                        set_device (Some d') (EvSeek 0 SeekStart r)
                          (set_buffer [] 0 0 s1) in
                      match r with
                      | DevFail c =>
                          (set_error (RawError c) s2,
                           Err (DeviceError (RawError c)))
                      | DevOk p =>
                          (set_position p (set_direction Idle s2), Ok tt)
                      end))
                (w ++ rest)).
  { intros s1 Hh1 He1 Hc1. exists (drop (cursor f) (content f)).
    cbn [deviceSeek MemFile_device]. unfold mem_seek.
    destruct (decide (0 + 0 < 0)%Z) as [Hneg|_]; [lia|].
    cbn [fst]. exists (mkMemFile (content f) 0 (chunk f) (writable f)).
    cbn. rewrite He1, Hc1, <- Hw, take_drop.
    repeat split; auto. }
  unfold seek. rewrite (holds_check s f _ [] Hs).
  destruct (direction s) eqn:Hd.
  - rewrite Hh. apply Hgo; auto.
  - rewrite Hh. apply Hgo; auto.
  - rewrite (holds_flush_pending s f _ [] Hs). cbn.
    apply Hgo; auto.
Qed.

Lemma take_drop_length_take (k : nat) (l : list byte) :
  take k l ++ drop (length (take k l)) l = l.
Proof.
  rewrite length_take.
  destruct (decide (k <= length l)) as [Hle|Hgt].
  - rewrite Nat.min_l by exact Hle. apply take_drop.
  - rewrite Nat.min_r by lia. rewrite take_ge, drop_ge by lia.
    apply app_nil_r.
Qed.

Lemma refill_mem (s : Stream MemFile) f b rest :
  handle s = Some f -> error_flag s = false -> 0 < chunk f ->
  0 < capacity s -> drop (cursor f) (content f) = b :: rest ->
  exists s', refill s = (s', GotByte b) /\ reading s' rest.
Proof.
  intros Hh He Hch Hcap Hav. unfold refill. rewrite Hh.
  cbn [deviceRead MemFile_device]. unfold mem_read. rewrite Hav.
  destruct (Nat.min (capacity s) (chunk f)) as [|k] eqn:Hk; [exfalso; lia|].
  cbn [take]. eexists. split; [reflexivity|].
  exists (mkMemFile (content f) (cursor f + length (b :: take k rest))
            (chunk f) (writable f)).
  unfold reading, pending. cbn -[drop take Nat.add].
  rewrite (take_ge (b :: take k rest) (S (length (take k rest))))
    by (cbn [length]; lia).
  rewrite <- drop_drop, Hav. cbn [drop length].
  repeat split; auto; try discriminate.
  apply take_drop_length_take.
Qed.

Lemma readByte_mem (s : Stream MemFile) b rest :
  reading s (b :: rest) ->
  exists s', readByte s = (s', GotByte b) /\ reading s' rest.
Proof.
  intros (f & Hh & He & Hch & Hcap & Hdir & Hidle & Hav).
  unfold readByte, check. rewrite Hh, He.
  assert (Hrefill : drop (read_pos s) (pending s) = [] ->
            exists s', refill s = (s', GotByte b) /\ reading s' rest).
  { intros Hnil. rewrite Hnil in Hav. cbn [app] in Hav.
    eapply refill_mem; eauto. }
  destruct (direction s) eqn:Hd; [auto| |contradiction].
  destruct (pending s !! read_pos s) as [b'|] eqn:Hb.
  - rewrite (drop_S _ _ _ Hb) in Hav. cbn [app] in Hav.
    inversion Hav; subst b'. eexists. split; [reflexivity|].
    exists f. unfold pending in *. cbn.
    repeat split; auto; rewrite Hd; discriminate.
  - apply Hrefill. apply drop_ge. apply lookup_ge_None. exact Hb.
Qed.

Lemma readBytes_mem n : forall (s : Stream MemFile) avail,
  reading s avail -> n <= length avail ->
  exists s', readBytes n s = (s', take n avail) /\ reading s' (drop n avail).
Proof.
  induction n as [|n IH]; intros s avail Hr Hn.
  - exists s. rewrite drop_0. auto.
  - destruct avail as [|b rest]; [cbn in Hn; lia|].
    destruct (readByte_mem s b rest Hr) as (s1 & E1 & Hr1).
    destruct (IH s1 rest Hr1) as (s2 & E2 & Hr2); [cbn in Hn; lia|].
    exists s2. cbn [readBytes]. rewrite E1, E2. auto.
Qed.

Lemma do_read_mem r (s : Stream MemFile) avail :
  reading s avail -> requested_by r <= length avail ->
  exists s',
    do_read r s = (s', take (requested_by r) avail)
    /\ reading s' (drop (requested_by r) avail).
Proof.
  intros Hr Hn. destruct r as [|n]; cbn [do_read requested_by] in *.
  - destruct avail as [|b rest]; [cbn in Hn; lia|].
    destruct (readByte_mem s b rest Hr) as (s1 & -> & Hr1).
    exists s1. auto.
  - apply readBytes_mem; assumption.
Qed.

Lemma do_reads_mem rs : forall (s : Stream MemFile) avail,
  reading s avail -> sum_list (map requested_by rs) <= length avail ->
  exists s',
    do_reads rs s = (s', take (sum_list (map requested_by rs)) avail).
Proof.
  induction rs as [|r rs IH]; intros s avail Hr Hn.
  - exists s. reflexivity.
  - change (sum_list (map requested_by (r :: rs)))
      with (requested_by r + sum_list (map requested_by rs)) in *.
    destruct (do_read_mem r s avail Hr) as (s1 & E1 & Hr1); [lia|].
    destruct (IH s1 _ Hr1) as (s2 & E2).
    { rewrite length_drop. lia. }
    exists s2. cbn [do_reads]. rewrite E1, E2.
    rewrite take_take_drop. reflexivity.
Qed.

(** The three endings of the retry loop, on files: one that takes a byte
    per call, one that refuses writes, and one that takes nothing, whose
    stall [writeBytes] answers as a [DeviceError]. *)
Lemma retry_loop_endings :
  write_retry (retry_budget [x61; x62]) (mkMemFile [] 0 1 true) [x61; x62]
    false []
  = (mkMemFile [x61; x62] 2 1 true, [],
     [EvWrite [x61; x62] (DevOk 1); EvWrite [x62] (DevOk 1)], RetryDone)
  /\ write_retry (retry_budget [x61; x62]) read_only_file [x61; x62] false []
     = (read_only_file, [x61; x62], [EvWrite [x61; x62] (DevFail 9)],
        RetryFailed (RawError 9))
  /\ write_retry (retry_budget [x61; x62]) stalled_file [x61; x62] false []
     = (stalled_file, [x61; x62],
        [EvWrite [x61; x62] (DevOk 0); EvWrite [x61; x62] (DevOk 0)],
        RetryFailed NoProgress)
  /\ writeBytes [x61; x62] (fresh stalled_file Unbuffered 4)
     = (set_error NoProgress
          (flushed (append_byte x61
                      (to_writing (fresh stalled_file Unbuffered 4)))
             stalled_file [x61]
             [EvWrite [x61] (DevOk 0); EvWrite [x61] (DevOk 0)]),
        Err (DeviceError NoProgress)).
Proof. vm_compute. repeat split. Qed.

(** C5, as the specification words it, fails: what is read back differs
    from what was written on a Stream over a file that refuses writes, on
    one over a file opened at its end, and on one over a file that takes
    no bytes. *)
Lemma round_trip_not_universal :
  ~ round_trip_property (fresh read_only_file FullyBuffered 4)
  /\ ~ round_trip_property (fresh appended_file FullyBuffered 4)
  /\ ~ round_trip_property (fresh stalled_file FullyBuffered 4).
Proof.
  split; [|split]; intros Hrt;
    specialize (Hrt [WByte x61] [RByte] eq_refl);
    vm_compute in Hrt; discriminate Hrt.
Qed.

(** C5, amended: on a Stream freshly opened over a writable in-memory file
    positioned at offset 0 that moves at least one byte per device call,
    any sequence of writes followed by a flush, a seek to offset 0 from
    the start and reads of the same total length reads back exactly the
    bytes written, whatever the buffering mode, the capacity and the
    chunk size. *)
Theorem round_trip_memfile (f : MemFile) (m : Mode) (cap : nat)
    (s : Stream MemFile) :
  writable f = true -> 0 < chunk f -> cursor f = 0 ->
  open (DevOk f) m cap = Ok s ->
  round_trip_property s.
Proof.
  intros Hw Hch Hcur Hopen ws rs Hsum.
  cbn in Hopen. injection Hopen as <-.
  set (s0 := mkStream _ _ _ _ _ _ _ _ _ _ _ _).
  assert (H0 : writing s0 []).
  { exists f, []. unfold holds, pending, file_ok. subst s0. cbn.
    rewrite Hcur. cbn.
    repeat split; auto; try lia.
    destruct (decide (cap = 0)); unfold BUFSIZ; lia. }
  pose proof (do_writes_mem ws s0 [] H0) as H1. cbn [app] in H1.
  apply flush_mem in H1. apply seek_start_mem in H1 as (rest & Hr).
  unfold round_trip.
  destruct (do_reads_mem rs _ _ Hr) as (s' & ->).
  { rewrite length_app. lia. }
  cbn [snd]. rewrite Hsum. apply take_app_length.
Qed.

Lemma round_trip_memfile_witness :
  round_trip [WByte x61; WBytes [x62; x0a; x63]] [RBytes 3; RByte]
    (fresh (mkMemFile [x7a; x7a] 0 2 true) LineBuffered 3)
  = [x61; x62; x0a; x63].
Proof.
  exact (round_trip_memfile (mkMemFile [x7a; x7a] 0 2 true) LineBuffered 3
           (fresh (mkMemFile [x7a; x7a] 0 2 true) LineBuffered 3)
           eq_refl (Nat.lt_0_succ 1) eq_refl eq_refl
           [WByte x61; WBytes [x62; x0a; x63]] [RBytes 3; RByte] eq_refl).
Defined.

(** C8, as the specification words it, fails: on a line-buffered Stream
    with a 2-byte buffer, writing "ab\n" makes two device writes, of 2
    bytes and of 1 byte. *)
Lemma line_flush_not_universal :
  mode (fresh empty_file LineBuffered 2) = LineBuffered
  /\ new_events (fresh empty_file LineBuffered 2)
       (fst (writeBytes ab_newline (fresh empty_file LineBuffered 2)))
     = [EvWrite ab (DevOk 2); EvWrite [newline] (DevOk 1)]
  /\ ~ line_flush_property (fresh empty_file LineBuffered 2).
Proof.
  split; [reflexivity|]. split; [reflexivity|].
  intros [(data & r & Heq & _) _]. vm_compute in Heq. discriminate Heq.
Qed.

Lemma line_buffered_flush_on_newline_witness :
  let s := fresh empty_file LineBuffered 4 in
  line_flush_property s
  /\ new_events s (fst (writeBytes ab_newline s))
     = [EvWrite ab_newline (DevOk 3)]
  /\ new_events s (fst (writeBytes ab s)) = []
  /\ pending (fst (writeBytes ab s)) = ab
  /\ (exists more,
        new_events s (fst (flush (fst (writeBytes ab s))))
        = EvWrite ab (fst (deviceWrite empty_file ab)) :: more)
  /\ (exists more,
        new_events s (fst (close (fst (writeBytes ab s))))
        = EvWrite ab (fst (deviceWrite empty_file ab)) :: more).
Proof.
  apply (line_buffered_flush_on_newline (fresh empty_file LineBuffered 4)
           empty_file (mkMemFile ab_newline 3 4 true)).
  - reflexivity.
  - reflexivity.
  - reflexivity.
  - reflexivity.
  - vm_compute. lia.
  - reflexivity.
Defined.

Lemma cursor_invariant_always_witness :
  let s := exec (OpWriteBytes ab_newline) (fresh empty_file LineBuffered 2) in
  cursor_inv s /\ forall o, cursor_inv (exec o s).
Proof.
  apply (cursor_invariant_always (D := MemFile)).
  apply reach_exec.
  apply (reach_open (DevOk empty_file) LineBuffered 2). reflexivity.
Defined.

End StreamFacts.

(* ===================================================================== *)
(** ** More on [__riscv_hwprobe_one] and the constants of [sys/hwprobe.h] *)
(* ===================================================================== *)

Module HwprobeExtra.
Import Hwprobe HwprobeKeys.

Section Extra.

Variables ENOSYS ENOENT : Z.
Variable K : Type.

Local Abbreviation hwprobe_one := (__riscv_hwprobe_one ENOSYS ENOENT K).

Local Abbreviation shared_one :=
  (HwprobeShared.__riscv_hwprobe_one ENOSYS ENOENT K).

(** X1: the helper itself writes through [value] only.  Whatever the
    function pointer, the key and the probe's answer, every location other
    than the one [value] points to holds after the run what it held when
    the probe function returned, and what it held at entry when the
    function pointer is null. *)
Theorem hwprobe_one_frame (fp : option (HwprobeShared.__riscv_hwprobe_t K))
    key0 value0 (m : machine K) (q : addr) :
  q ≠ value0 ->
  mem (snd (shared_one fp key0 value0 m)) !! q
  = match fp with
    | None => mem m !! q
    | Some f => fst (snd (f (probe_request key0) (mem m) (kernel m))) !! q
    end.
Proof.
  intros Hq. destruct fp as [f|]; [|reflexivity].
  destruct (f (probe_request key0) (mem m) (kernel m))
    as [[rc p] [mem1 k1]] eqn:Hf.
  rewrite (HwprobeSharedFacts.shared_run ENOSYS ENOENT K f key0 value0 m
             rc p mem1 k1 Hf).
  destruct (decide (rc ≠ 0)); [|destruct (decide (key p < 0))]; cbn;
    try reflexivity.
  apply lookup_insert_ne. congruence.
Qed.

(** X2: with non-zero [ENOSYS] and [ENOENT], the helper returns 0 exactly
    when the function pointer is not null, the probe answered 0 and left a
    non-negative key; a 0 return guarantees that the location [value]
    points to holds the value the probe answered. *)
Theorem hwprobe_one_zero_iff (fp : option (__riscv_hwprobe_t K)) key0 value0
    (m : machine K) :
  ENOSYS ≠ 0 -> ENOENT ≠ 0 ->
  (fst (hwprobe_one fp key0 value0 m) = 0
   <-> exists f, fp = Some f
         /\ fst (fst (f (probe_request key0) (kernel m))) = 0
         /\ 0 <= key (snd (fst (f (probe_request key0) (kernel m)))))
  /\ (fst (hwprobe_one fp key0 value0 m) = 0 ->
      exists f, fp = Some f
        /\ mem (snd (hwprobe_one fp key0 value0 m)) !! value0
           = Some (value (snd (fst (f (probe_request key0) (kernel m)))))).
Proof.
  intros Hsys Hent. destruct fp as [f|].
  - destruct (f (probe_request key0) (kernel m)) as [[rc p] k'] eqn:Hf.
    rewrite (HwprobeFacts.hwprobe_one_run ENOSYS ENOENT K f key0 value0 m
               rc p k' Hf).
    destruct (decide (rc ≠ 0)) as [Hrc|Hrc];
      [|destruct (decide (key p < 0)) as [Hk|Hk]]; cbn.
    + split.
      * split; [contradiction|].
        intros (g & [= <-] & Hz & _). rewrite Hf in Hz. contradiction.
      * contradiction.
    + split.
      * split; [contradiction|].
        intros (g & [= <-] & _ & Hz). rewrite Hf in Hz. cbn in Hz. lia.
      * contradiction.
    + split.
      * split; [|reflexivity]. intros _. exists f. rewrite Hf. cbn.
        split; [reflexivity|]. split; lia.
      * intros _. exists f. rewrite Hf. cbn.
        split; [reflexivity|]. apply lookup_insert_eq.
  - cbn. split.
    + split; [contradiction|]. intros (g & Hg & _). discriminate Hg.
    + contradiction.
Qed.

(** X5: for each key the header defines, through a probe function that
    leaves the key of the pair alone the helper never answers by its
    [ENOENT] branch: it returns the probe's answer; when that answer is 0
    it stores the answered value through the value pointer, on top of the
    memory as the probe function left it, and otherwise it stores nothing
    and that memory stays. *)
Theorem hwprobe_one_known_key (f : HwprobeShared.__riscv_hwprobe_t K) key0
    value0 (m : machine K) :
  key0 ∈ hwprobe_keys -> HwprobeShared.preserves_key f ->
  let '((rc, p), (mem1, k1)) := f (probe_request key0) (mem m) (kernel m) in
  let '(r, m') := shared_one (Some f) key0 value0 m in
  r = rc
  /\ (existsb (is_store_at value0) (new_events m m') = true <-> rc = 0)
  /\ (rc = 0 ->
        mem m' = <[value0 := value p]> mem1
        /\ mem m' !! value0 = Some (value p))
  /\ (rc ≠ 0 -> mem m' = mem1).
Proof.
  intros Hkey Hpres.
  assert (Hnn : 0 <= key0).
  { unfold hwprobe_keys in Hkey. rewrite !elem_of_cons in Hkey.
    rewrite elem_of_nil in Hkey.
    destruct Hkey as [->|[->|[->|[->|[->|[->|[->|[]]]]]]]]; vm_compute;
      discriminate. }
  pose proof (Hpres (probe_request key0) (mem m) (kernel m)) as Hp.
  destruct (f (probe_request key0) (mem m) (kernel m))
    as [[rc p] [mem1 k1]] eqn:Hf.
  rewrite (HwprobeSharedFacts.shared_run ENOSYS ENOENT K f key0 value0 m
             rc p mem1 k1 Hf).
  cbn in Hp.
  destruct (decide (rc ≠ 0)) as [Hrc|Hrc];
    [|destruct (decide (key p < 0)) as [Hk|Hk]; [lia|]].
  - unfold HwprobeShared.returned.
    rewrite HwprobeSharedFacts.shared_new_events. cbn.
    split; [reflexivity|].
    split; [split; [discriminate|contradiction]|].
    split; [intros; contradiction | reflexivity].
  - rewrite <- app_assoc, HwprobeSharedFacts.shared_new_events. cbn.
    rewrite bool_decide_eq_true_2 by reflexivity.
    split; [lia|]. split; [split; intros; [lia|reflexivity]|].
    split; [intros _; split; [reflexivity | apply lookup_insert_eq]|].
    intros; contradiction.
Qed.

(** X6: the helper does not initialise the value field of its pair: when
    the probe function answers 0 with a non-negative key and has left the
    value field as it was handed over, the helper reports success and what
    it stores through the value pointer is indeterminate, whatever the
    location held. *)
Theorem hwprobe_one_copies_indeterminate (f : __riscv_hwprobe_t K) key0
    value0 (m : machine K) :
  fst (fst (f (probe_request key0) (kernel m))) = 0 ->
  0 <= key (snd (fst (f (probe_request key0) (kernel m)))) ->
  value (snd (fst (f (probe_request key0) (kernel m))))
  = value (__pairs (probe_request key0)) ->
  fst (hwprobe_one (Some f) key0 value0 m) = 0
  /\ mem (snd (hwprobe_one (Some f) key0 value0 m)) !! value0
     = Some Vundef.
Proof.
  destruct (f (probe_request key0) (kernel m)) as [[rc p] k'] eqn:Hf.
  cbn [fst snd]. intros Hrc Hk Hv.
  rewrite (HwprobeFacts.hwprobe_one_run ENOSYS ENOENT K f key0 value0 m
             rc p k' Hf).
  destruct (decide (rc ≠ 0)) as [Hz|_]; [contradiction|].
  destruct (decide (key p < 0)); [lia|].
  cbn. split; [reflexivity|]. rewrite Hv. apply lookup_insert_eq.
Qed.

End Extra.

Lemma hwprobe_one_frame_witness :
  mem (snd (HwprobeShared.__riscv_hwprobe_one 38 2 unit
              (Some (HwprobeShared.counting_probe 72)) 4 64 demo_machine))
    !! 72
  = fst (snd (HwprobeShared.counting_probe 72 (probe_request 4)
                (mem demo_machine) (kernel demo_machine))) !! 72.
Proof.
  apply (hwprobe_one_frame 38 2 unit
           (Some (HwprobeShared.counting_probe 72)) 4 64 demo_machine 72).
  discriminate.
Defined.

Lemma hwprobe_one_zero_iff_witness :
  (fst (__riscv_hwprobe_one 38 2 unit (Some demo_probe) 4 72 demo_machine)
   = 0
   <-> exists f, Some demo_probe = Some f
         /\ fst (fst (f (probe_request 4) (kernel demo_machine))) = 0
         /\ 0 <= key (snd (fst (f (probe_request 4) (kernel demo_machine)))))
  /\ (fst (__riscv_hwprobe_one 38 2 unit (Some demo_probe) 4 72
             demo_machine) = 0 ->
      exists f, Some demo_probe = Some f
        /\ mem (snd (__riscv_hwprobe_one 38 2 unit (Some demo_probe) 4 72
                       demo_machine)) !! 72
           = Some (value (snd (fst (f (probe_request 4)
                                      (kernel demo_machine)))))).
Proof.
  apply (hwprobe_one_zero_iff 38 2 unit (Some demo_probe) 4 72 demo_machine);
    discriminate.
Defined.

Lemma hwprobe_one_known_key_witness :
  let '((rc, p), (mem1, k1)) :=
    HwprobeShared.counting_probe 72
      (probe_request RISCV_HWPROBE_KEY_IMA_EXT_0) (mem demo_machine)
      (kernel demo_machine) in
  let '(r, m') :=
    HwprobeShared.__riscv_hwprobe_one 38 2 unit
      (Some (HwprobeShared.counting_probe 72)) RISCV_HWPROBE_KEY_IMA_EXT_0
      64 demo_machine in
  r = rc
  /\ (existsb (is_store_at 64) (new_events demo_machine m') = true
      <-> rc = 0)
  /\ (rc = 0 ->
        mem m' = <[64 := value p]> mem1 /\ mem m' !! 64 = Some (value p))
  /\ (rc ≠ 0 -> mem m' = mem1).
Proof.
  apply (hwprobe_one_known_key 38 2 unit (HwprobeShared.counting_probe 72)
           RISCV_HWPROBE_KEY_IMA_EXT_0 64 demo_machine).
  - unfold hwprobe_keys. rewrite !elem_of_cons. tauto.
  - intros args mem0 k. reflexivity.
Defined.

Lemma hwprobe_one_copies_indeterminate_witness :
  fst (__riscv_hwprobe_one 38 2 unit (Some silent_probe) 5 64 demo_machine)
  = 0
  /\ mem (snd (__riscv_hwprobe_one 38 2 unit (Some silent_probe) 5 64
                 demo_machine)) !! 64
     = Some Vundef.
Proof.
  apply (hwprobe_one_copies_indeterminate 38 2 unit silent_probe 5 64
           demo_machine).
  - reflexivity.
  - discriminate.
  - reflexivity.
Defined.

(** *** The value bits *)

Lemma has_flag_lor a b f :
  has_flag (Z.lor a b) f = has_flag a f || has_flag b f.
Proof.
  unfold has_flag. rewrite Z.land_lor_distr_l.
  destruct (Z.eqb_spec (Z.land a f) 0) as [Ha|Ha];
    destruct (Z.eqb_spec (Z.land b f) 0) as [Hb|Hb]; cbn;
    destruct (Z.eqb_spec (Z.lor (Z.land a f) (Z.land b f)) 0) as [Hab|Hab];
    try reflexivity; exfalso.
  - apply Hab. rewrite Ha, Hb. reflexivity.
  - apply Z.lor_eq_0_iff in Hab. tauto.
  - apply Z.lor_eq_0_iff in Hab. tauto.
  - apply Z.lor_eq_0_iff in Hab. tauto.
Qed.

Lemma ima_flag_cases f :
  f ∈ ima_ext_0_flags ->
  f = 1 \/ f = 2 \/ f = 4 \/ f = 8 \/ f = 16 \/ f = 32 \/ f = 64.
Proof.
  unfold ima_ext_0_flags. rewrite !elem_of_cons, elem_of_nil.
  intros [->|[->|[->|[->|[->|[->|[->|[]]]]]]]]; vm_compute; tauto.
Qed.

(** X7: the seven bits of the [RISCV_HWPROBE_KEY_IMA_EXT_0] value are
    independent: in the word that or-s together any selection of them,
    the test [(word & flag) != 0] succeeds for exactly the selected
    flags. *)
Theorem ima_ext_0_flags_independent (selected : list Z) (f : Z) :
  selected ⊆ ima_ext_0_flags -> f ∈ ima_ext_0_flags ->
  has_flag (flags_word selected) f = bool_decide (f ∈ selected).
Proof.
  intros Hsel Hf. induction selected as [|s selected IH].
  - cbn. rewrite bool_decide_eq_false_2 by apply not_elem_of_nil.
    reflexivity.
  - cbn [flags_word foldr]. rewrite has_flag_lor.
    fold (flags_word selected).
    rewrite IH by (intros x Hx; apply Hsel, elem_of_cons; right; exact Hx).
    assert (Hs : s ∈ ima_ext_0_flags)
      by (apply Hsel, elem_of_cons; left; reflexivity).
    assert (Hsf : has_flag s f = bool_decide (f = s)).
    { apply ima_flag_cases in Hs. apply ima_flag_cases in Hf.
      destruct Hs as [->|[->|[->|[->|[->|[->| ->]]]]]];
        destruct Hf as [->|[->|[->|[->|[->|[->| ->]]]]]];
        reflexivity. }
    rewrite Hsf.
    destruct (decide (f = s)) as [->|Hne].
    + rewrite bool_decide_eq_true_2 by reflexivity.
      rewrite (bool_decide_eq_true_2 (s ∈ s :: selected))
        by (apply elem_of_cons; left; reflexivity).
      reflexivity.
    + rewrite (bool_decide_eq_false_2 (f = s)) by exact Hne. cbn.
      apply bool_decide_ext. rewrite elem_of_cons. tauto.
Qed.

Lemma ima_ext_0_flags_independent_witness :
  has_flag (flags_word [RISCV_HWPROBE_EXT_ZBB; RISCV_HWPROBE_IMA_FD])
    RISCV_HWPROBE_EXT_ZBA
  = bool_decide
      (RISCV_HWPROBE_EXT_ZBA ∈ [RISCV_HWPROBE_EXT_ZBB; RISCV_HWPROBE_IMA_FD]).
Proof.
  apply (ima_ext_0_flags_independent
           [RISCV_HWPROBE_EXT_ZBB; RISCV_HWPROBE_IMA_FD]
           RISCV_HWPROBE_EXT_ZBA).
  - intros x Hx. unfold ima_ext_0_flags.
    rewrite !elem_of_cons, elem_of_nil in Hx. rewrite !elem_of_cons.
    destruct Hx as [->|[->|[]]]; tauto.
  - unfold ima_ext_0_flags. rewrite !elem_of_cons. tauto.
Defined.

(** X8: [RISCV_HWPROBE_MISALIGNED_MASK] recovers the misaligned-access
    field of a [RISCV_HWPROBE_KEY_CPUPERF_0] value: whatever bits are set
    above the field, masking gives back the named value that was put in
    it. *)
Theorem misaligned_mask_recovers (upper p : Z) :
  p ∈ misaligned_values ->
  Z.land (Z.lor (Z.shiftl upper 3) p) RISCV_HWPROBE_MISALIGNED_MASK = p.
Proof.
  intros Hp. rewrite Z.land_lor_distr_l.
  change RISCV_HWPROBE_MISALIGNED_MASK with (Z.ones 3).
  rewrite (Z.land_ones (Z.shiftl upper 3)) by lia.
  rewrite Z.shiftl_mul_pow2 by lia. rewrite Z_mod_mult. cbn [Z.lor].
  unfold misaligned_values in Hp. rewrite !elem_of_cons, elem_of_nil in Hp.
  destruct Hp as [->|[->|[->|[->|[->|[]]]]]]; reflexivity.
Qed.

Lemma misaligned_mask_recovers_witness :
  Z.land (Z.lor (Z.shiftl 5 3) RISCV_HWPROBE_MISALIGNED_FAST)
    RISCV_HWPROBE_MISALIGNED_MASK
  = RISCV_HWPROBE_MISALIGNED_FAST.
Proof.
  apply (misaligned_mask_recovers 5 RISCV_HWPROBE_MISALIGNED_FAST).
  unfold misaligned_values. rewrite !elem_of_cons. tauto.
Defined.

End HwprobeExtra.

(* ===================================================================== *)
(** ** What the conditional declarations of [stdio.h] guarantee *)
(* ===================================================================== *)

Module StdioHeaderFacts.
Import StdioHeader.

Lemma bools_all b : b ∈ bools.
Proof. destruct b; unfold bools; rewrite !elem_of_cons; tauto. Qed.

Lemma normalise_in c : normalise c ∈ all_features.
Proof.
  unfold all_features, normalise.
  apply list_elem_of_bind. exists (__USE_UNIX98 c).
  split; [|apply bools_all].
  apply list_elem_of_bind. exists (__USE_XOPEN2K c).
  split; [|apply bools_all].
  apply list_elem_of_bind. exists (__USE_FILE_OFFSET64 c).
  split; [|apply bools_all].
  apply list_elem_of_bind. exists (__USE_LARGEFILE c).
  split; [|apply bools_all].
  apply list_elem_of_bind. exists (__USE_LARGEFILE64 c).
  split; [|apply bools_all].
  apply list_elem_of_bind. exists (__USE_ISOC99 c).
  split; [|apply bools_all].
  apply list_elem_of_bind. exists (__REDIRECT c).
  split; [|apply bools_all].
  apply list_elem_of_bind. exists (__GLIBC_USE_DEPRECATED_SCANF c).
  split; [|apply bools_all].
  apply list_elem_of_bind. exists (__GLIBC_USE_C23_STRTOL c).
  split; [|apply bools_all].
  apply list_elem_of_bind. exists (__LDBL_COMPAT c).
  split; [|apply bools_all].
  apply list_elem_of_bind.
  exists (if __LDOUBLE_REDIRECTS_TO_FLOAT128_ABI c =? 0 then 0
          else if __LDOUBLE_REDIRECTS_TO_FLOAT128_ABI c =? 1 then 1 else 2).
  split; [|destruct (_ =? 0); [|destruct (_ =? 1)];
           rewrite !elem_of_cons; tauto].
  apply list_elem_of_bind. exists (__off_t_defined c).
  split; [|apply bools_all].
  apply list_elem_of_bind. exists (__off64_t_defined c).
  split; [|apply bools_all].
  constructor.
Qed.

(** The header only asks whether
    [__LDOUBLE_REDIRECTS_TO_FLOAT128_ABI] is 0 and whether it is 1. *)
Lemma stdio_h_normalise c : stdio_h (normalise c) = stdio_h c.
Proof.
  destruct c as [a b c d e f g h i j k l m].
  unfold stdio_h, scanf_decls, vscanf_decls, ldbl_redirections,
    includes_stdio_ldbl, normalise.
  cbn -[Z.eqb].
  destruct (Z.eqb_spec k 0) as [->|H0]; [reflexivity|].
  destruct (Z.eqb_spec k 1) as [->|H1]; reflexivity.
Qed.

Lemma bind_name_normalise c n : bind_name (normalise c) n = bind_name c n.
Proof. unfold bind_name. rewrite stdio_h_normalise. reflexivity. Qed.

Lemma link_symbol_normalise c n :
  link_symbol (normalise c) n = link_symbol c n.
Proof. unfold link_symbol. rewrite bind_name_normalise. reflexivity. Qed.

Lemma ldr_normalise c :
  (__LDOUBLE_REDIRECTS_TO_FLOAT128_ABI (normalise c) =? 0)
  = (__LDOUBLE_REDIRECTS_TO_FLOAT128_ABI c =? 0).
Proof.
  cbn -[Z.eqb].
  destruct (Z.eqb_spec (__LDOUBLE_REDIRECTS_TO_FLOAT128_ABI c) 0);
    [reflexivity|].
  destruct (Z.eqb_spec (__LDOUBLE_REDIRECTS_TO_FLOAT128_ABI c) 1);
    reflexivity.
Qed.

Lemma includes_stdio_ldbl_normalise c :
  includes_stdio_ldbl (normalise c) = includes_stdio_ldbl c.
Proof.
  unfold includes_stdio_ldbl. cbn -[Z.eqb]. f_equal.
  destruct (Z.eqb_spec (__LDOUBLE_REDIRECTS_TO_FLOAT128_ABI c) 0) as [E|_].
  - rewrite E. reflexivity.
  - destruct (Z.eqb_spec (__LDOUBLE_REDIRECTS_TO_FLOAT128_ABI c) 1);
      reflexivity.
Qed.

(** A check that holds on the enumerated settings holds on all. *)
Lemma by_settings (chk : features -> bool) :
  (forall c, chk (normalise c) = chk c) ->
  forallb chk all_features = true ->
  forall c, chk c = true.
Proof.
  intros Hn Hall c. rewrite <- Hn.
  rewrite forallb_forall in Hall. apply Hall.
  apply list_elem_of_In. apply normalise_in.
Qed.

Lemma forallb_elem {A} (f : A -> bool) (l : list A) x :
  forallb f l = true -> x ∈ l -> f x = true.
Proof.
  intros Hall Hx. rewrite forallb_forall in Hall. apply Hall.
  apply list_elem_of_In. exact Hx.
Qed.

Lemma forallb_same {A} (f g : A -> bool) (l : list A) :
  (forall x, f x = g x) -> forallb f l = forallb g l.
Proof.
  intros Hfg. induction l as [|x l IH]; [reflexivity|].
  cbn. rewrite Hfg, IH. reflexivity.
Qed.

Lemma ident_beq_eq x y : ident_beq x y = true <-> x = y.
Proof.
  split; [apply internal_ident_dec_bl|apply internal_ident_dec_lb].
Qed.

Lemma type_name_beq_eq x y : type_name_beq x y = true <-> x = y.
Proof.
  split; [apply internal_type_name_dec_bl|apply internal_type_name_dec_lb].
Qed.

Lemma option_ident_beq_eq a b : option_ident_beq a b = true <-> a = b.
Proof.
  destruct a as [x|], b as [y|]; cbn; try (split; congruence).
  rewrite ident_beq_eq. split; congruence.
Qed.

Lemma option_type_beq_eq a b : option_type_beq a b = true <-> a = b.
Proof.
  destruct a as [x|], b as [y|]; cbn; try (split; congruence).
  rewrite type_name_beq_eq. split; congruence.
Qed.

Lemma width_check_holds c : width_check c = true.
Proof.
  revert c. apply by_settings.
  - intros c. unfold width_check.
    apply forallb_same. intros tw. rewrite link_symbol_normalise.
    reflexivity.
  - vm_compute. reflexivity.
Qed.

(** X9: a large-file function is never bound to the entry point of the
    other offset width: whenever the header binds it at all, it is to the
    64-bit twin under [__USE_FILE_OFFSET64] and to the function itself
    otherwise, whatever the other macros and whichever of [__REDIRECT] or
    the macro fallback is used. *)
Theorem lfs_never_wrong_width (c : features) (n n64 : ident) :
  (n, n64) ∈ lfs_twins ->
  link_symbol c n = None
  \/ link_symbol c n = Some (if __USE_FILE_OFFSET64 c then n64 else n).
Proof.
  intros Hin.
  pose proof (forallb_elem _ _ _ (width_check_holds c) Hin) as Hchk.
  cbn [fst snd] in Hchk.
  destruct (link_symbol c n) as [s|]; [|left; reflexivity].
  right. apply ident_beq_eq in Hchk. congruence.
Qed.

Lemma lfs_never_wrong_width_witness :
  link_symbol (mkFeatures true true true true false true true false true
                 false 0 false false) fopen = Some fopen64
  /\ (link_symbol (mkFeatures true true true true false true true false true
                     false 0 false false) fopen = None
      \/ link_symbol (mkFeatures true true true true false true true false
                        true false 0 false false) fopen
         = Some (if __USE_FILE_OFFSET64
                      (mkFeatures true true true true false true true false
                         true false 0 false false)
                 then fopen64 else fopen)).
Proof.
  split; [reflexivity|].
  apply (lfs_never_wrong_width
           (mkFeatures true true true true false true true false true false
              0 false false) fopen fopen64).
  unfold lfs_twins. rewrite !elem_of_cons. tauto.
Defined.

Lemma declared_check_holds c : declared_check c = true.
Proof.
  revert c. apply by_settings.
  - intros c. unfold declared_check.
    apply forallb_same. intros tw. cbv zeta.
    rewrite link_symbol_normalise. reflexivity.
  - vm_compute. reflexivity.
Qed.

(** X10: the header leaves a large-file function without a declaration in
    exactly two cases: under [__USE_FILE_OFFSET64] when neither
    [__REDIRECT] nor [__USE_LARGEFILE64] is defined (the macro then names
    a 64-bit twin that is not declared), and, for [fseeko] and [ftello],
    when neither [__USE_LARGEFILE] nor [__USE_XOPEN2K] is defined. *)
Theorem lfs_undeclared_iff (c : features) (n n64 : ident) :
  (n, n64) ∈ lfs_twins ->
  (link_symbol c n = None
   <-> (__USE_FILE_OFFSET64 c = true /\ __REDIRECT c = false
        /\ __USE_LARGEFILE64 c = false)
       \/ ((n = fseeko \/ n = ftello)
           /\ __USE_LARGEFILE c = false /\ __USE_XOPEN2K c = false)).
Proof.
  intros Hin.
  pose proof (forallb_elem _ _ _ (declared_check_holds c) Hin) as Hchk.
  cbn [fst snd] in Hchk. cbv zeta in Hchk. apply Bool.eqb_prop in Hchk.
  assert (Hs : ident_beq n fseeko || ident_beq n ftello = true
               <-> n = fseeko \/ n = ftello).
  { rewrite orb_true_iff, !ident_beq_eq. reflexivity. }
  destruct (ident_beq n fseeko || ident_beq n ftello);
    destruct (link_symbol c n) as [s|];
    destruct (__USE_FILE_OFFSET64 c), (__REDIRECT c), (__USE_LARGEFILE64 c),
      (__USE_LARGEFILE c), (__USE_XOPEN2K c); cbn in Hchk;
    try discriminate Hchk;
    (split; [intros Hn; try discriminate Hn; tauto|]);
    intros [(H1 & H2 & H3)|(H1 & H2 & H3)];
    try discriminate; try reflexivity;
    apply Hs in H1; discriminate H1.
Qed.

Lemma lfs_undeclared_iff_witness :
  link_symbol (mkFeatures true true true true false true false false true
                 false 0 false false) fopen = None
  <-> (true = true /\ false = false /\ false = false)
      \/ ((fopen = fseeko \/ fopen = ftello) /\ true = false /\ true = false).
Proof.
  apply (lfs_undeclared_iff
           (mkFeatures true true true true false true false false true false
              0 false false) fopen fopen64).
  unfold lfs_twins. rewrite !elem_of_cons. tauto.
Defined.

Lemma position_check_holds c : position_check c = true.
Proof.
  revert c. apply by_settings.
  - intros c. unfold position_check.
    apply forallb_same. intros [[[n n64] t] t64].
    apply forallb_same. intros m. rewrite bind_name_normalise. reflexivity.
  - vm_compute. reflexivity.
Qed.

(** X11: a positioning function and the type of the file position in its
    prototype always match: called under its own name or that of its
    64-bit twin, in any setting, it is bound either to the narrow entry
    point with [__off_t] (or [__fpos_t]) or to the 64-bit entry point with
    [__off64_t] (or [__fpos64_t]), never to a mix of the two. *)
Theorem position_type_matches_symbol (c : features) (n n64 : ident)
    (t t64 : type_name) (m : ident) (b : binding) :
  (n, n64, t, t64) ∈ position_twins -> m = n \/ m = n64 ->
  bind_name c m = Some b ->
  (b_symbol b = n /\ b_pos b = Some t)
  \/ (b_symbol b = n64 /\ b_pos b = Some t64).
Proof.
  intros Hin Hm Hb.
  pose proof (forallb_elem _ _ _ (position_check_holds c) Hin) as Hchk.
  cbv beta iota in Hchk.
  assert (Hmin : m ∈ [n; n64]).
  { rewrite !elem_of_cons. tauto. }
  pose proof (forallb_elem _ _ _ Hchk Hmin) as Hchk'.
  cbv beta in Hchk'. rewrite Hb in Hchk'.
  apply orb_true_iff in Hchk'.
  destruct Hchk' as [H|H]; apply andb_true_iff in H as [H1 H2];
    apply ident_beq_eq in H1; apply option_type_beq_eq in H2; auto.
Qed.

Lemma position_type_matches_symbol_witness :
  (b_symbol {| b_symbol := fseeko64; b_pos := Some __off64_t |} = fseeko
   /\ b_pos {| b_symbol := fseeko64; b_pos := Some __off64_t |}
      = Some __off_t)
  \/ (b_symbol {| b_symbol := fseeko64; b_pos := Some __off64_t |} = fseeko64
      /\ b_pos {| b_symbol := fseeko64; b_pos := Some __off64_t |}
         = Some __off64_t).
Proof.
  apply (position_type_matches_symbol
           (mkFeatures true true true true true true true false true false
              0 false false) fseeko fseeko64 __off_t __off64_t fseeko).
  - unfold position_twins. rewrite !elem_of_cons. tauto.
  - left. reflexivity.
  - reflexivity.
Defined.

Lemma off_t_check_holds c : off_t_check c = true.
Proof.
  revert c. apply by_settings.
  - intros c. unfold off_t_check.
    apply forallb_same. intros n.
    rewrite bind_name_normalise, stdio_h_normalise. reflexivity.
  - vm_compute. reflexivity.
Qed.

(** X12: when the header itself gives [off_t] its type, [fseeko] and
    [ftello], if bound, take a file offset of exactly that type. *)
Theorem off_t_matches_fseeko (c : features) (n : ident) (b : binding) :
  n ∈ [fseeko; ftello] -> bind_name c n = Some b ->
  underlying (stdio_h c) off_t ≠ off_t ->
  b_pos b = Some (underlying (stdio_h c) off_t).
Proof.
  intros Hin Hb Hdef.
  pose proof (forallb_elem _ _ _ (off_t_check_holds c) Hin) as Hchk.
  cbv beta in Hchk. rewrite Hb in Hchk.
  apply orb_true_iff in Hchk. destruct Hchk as [H|H].
  - apply type_name_beq_eq in H. contradiction.
  - apply option_type_beq_eq in H. exact H.
Qed.

Lemma off_t_matches_fseeko_witness :
  b_pos {| b_symbol := ftello64; b_pos := Some __off64_t |}
  = Some (underlying
            (stdio_h (mkFeatures true true true true true true true false
                        true false 0 false false)) off_t).
Proof.
  apply (off_t_matches_fseeko
           (mkFeatures true true true true true true true false true false
              0 false false) ftello).
  - rewrite !elem_of_cons. tauto.
  - reflexivity.
  - discriminate.
Defined.

Lemma with_redirect_normalise r c n :
  link_symbol (with_redirect r (normalise c)) n
  = link_symbol (with_redirect r c) n.
Proof.
  change (with_redirect r (normalise c)) with (normalise (with_redirect r c)).
  apply link_symbol_normalise.
Qed.

Lemma scanf_check_holds c : scanf_check c = true.
Proof.
  revert c. apply by_settings.
  - intros c. unfold scanf_check.
    rewrite includes_stdio_ldbl_normalise. f_equal.
    apply forallb_same. intros n.
    rewrite link_symbol_normalise, !with_redirect_normalise. reflexivity.
  - vm_compute. reflexivity.
Qed.

(** X13: where [stdio.h] does not include [<bits/stdio-ldbl.h>] (neither
    [__LDBL_COMPAT] is defined nor [__LDOUBLE_REDIRECTS_TO_FLOAT128_ABI] is
    1), [fscanf], [scanf] and [sscanf] are declared and the entry point
    they are bound to does not depend on whether [__REDIRECT] is
    available: the redirected prototype and the macro fallback lead to the
    same assembler name. *)
Theorem scanf_redirect_independent (c : features) (n : ident) :
  n ∈ [fscanf; scanf; sscanf] ->
  includes_stdio_ldbl c = false ->
  is_Some (link_symbol c n)
  /\ link_symbol (with_redirect true c) n
     = link_symbol (with_redirect false c) n.
Proof.
  intros Hin Hinc.
  pose proof (scanf_check_holds c) as Hall. unfold scanf_check in Hall.
  rewrite Hinc in Hall. cbn [orb] in Hall.
  pose proof (forallb_elem _ _ _ Hall Hin) as Hchk.
  cbv beta in Hchk.
  destruct (link_symbol c n) as [s|]; [|discriminate Hchk].
  split; [eexists; reflexivity|].
  apply option_ident_beq_eq. exact Hchk.
Qed.

Lemma scanf_redirect_independent_witness :
  link_symbol (with_redirect false
                 (mkFeatures true true true true true true true false
                    true false 0 false false)) sscanf
  = Some __isoc23_sscanf
  /\ is_Some (link_symbol (mkFeatures true true true true true true true
                             false true false 0 false false) sscanf)
  /\ link_symbol (with_redirect true
                    (mkFeatures true true true true true true true false
                       true false 0 false false)) sscanf
     = link_symbol (with_redirect false
                      (mkFeatures true true true true true true true false
                         true false 0 false false)) sscanf.
Proof.
  split; [reflexivity|].
  apply (scanf_redirect_independent
           (mkFeatures true true true true true true true false true false
              0 false false) sscanf).
  - rewrite !elem_of_cons. tauto.
  - reflexivity.
Defined.

Lemma vscanf_check_holds c : vscanf_check c = true.
Proof.
  revert c. apply by_settings.
  - intros c. unfold vscanf_check.
    apply forallb_same. intros tw.
    rewrite !link_symbol_normalise, ldr_normalise. reflexivity.
  - vm_compute. reflexivity.
Qed.

(** X14: under [__USE_ISOC99], with [__LDBL_COMPAT] not defined and
    [__LDOUBLE_REDIRECTS_TO_FLOAT128_ABI] equal to 0 (so that [stdio.h]
    alone decides), each [scanf] function and its [v] variant are both
    declared and bound to entry points of the same edition of the
    standard: the plain one when the deprecated [scanf] is asked for, else
    the C23 one under [__GLIBC_USE (C23_STRTOL)], else the C99 one. *)
Theorem vscanf_generation (c : features) (n v : ident) :
  (n, v) ∈ scanf_twins -> __USE_ISOC99 c = true ->
  __LDBL_COMPAT c = false -> __LDOUBLE_REDIRECTS_TO_FLOAT128_ABI c = 0 ->
  exists s sv,
    link_symbol c n = Some s /\ link_symbol c v = Some sv
    /\ generation_of s = generation_of sv
    /\ generation_of s
       = if __GLIBC_USE_DEPRECATED_SCANF c then Plain
         else if __GLIBC_USE_C23_STRTOL c then C23 else C99.
Proof.
  intros Hin Hiso Hldbl Hldr.
  pose proof (forallb_elem _ _ _ (vscanf_check_holds c) Hin) as Hchk.
  cbn [fst snd] in Hchk. rewrite Hiso, Hldbl, Hldr in Hchk.
  cbn [negb orb Z.eqb] in Hchk.
  destruct (link_symbol c n) as [s|]; [|discriminate Hchk].
  destruct (link_symbol c v) as [sv|]; [|discriminate Hchk].
  exists s, sv. split; [reflexivity|]. split; [reflexivity|].
  apply andb_true_iff in Hchk as [H1 H2].
  split; apply internal_generation_dec_bl; assumption.
Qed.

Lemma vscanf_generation_witness :
  exists s sv,
    link_symbol (mkFeatures true true true true true true false false true
                   false 0 false false) scanf = Some s
    /\ link_symbol (mkFeatures true true true true true true false false
                      true false 0 false false) vscanf = Some sv
    /\ generation_of s = generation_of sv
    /\ generation_of s = C23.
Proof.
  apply (vscanf_generation
           (mkFeatures true true true true true true false false true false
              0 false false) scanf vscanf).
  - unfold scanf_twins. rewrite !elem_of_cons. tauto.
  - reflexivity.
  - reflexivity.
  - reflexivity.
Defined.

Lemma all_idents_complete n : n ∈ all_idents.
Proof.
  apply list_elem_of_In.
  assert (H : existsb (ident_beq n) all_idents = true)
    by (destruct n; reflexivity).
  apply existsb_exists in H as (x & Hx & Heq).
  apply ident_beq_eq in Heq. subst x. exact Hx.
Qed.

Lemma large_file_idents_test n :
  n ∈ large_file_idents -> existsb (ident_beq n) large_file_idents = true.
Proof.
  intros Hin. apply existsb_exists. exists n.
  split; [apply list_elem_of_In; exact Hin | apply ident_beq_eq; reflexivity].
Qed.

Lemma chain_check_holds c : chain_check c = true.
Proof.
  revert c. apply by_settings.
  - intros c. unfold chain_check.
    apply forallb_same. intros n.
    rewrite link_symbol_normalise, includes_stdio_ldbl_normalise.
    destruct (link_symbol c n) as [s|]; [|reflexivity].
    rewrite link_symbol_normalise. reflexivity.
  - vm_compute. reflexivity.
Qed.

(** X15: the header never chains redirections.  For an identifier of the
    large-file family in every setting, and for one of the [scanf] family
    where [stdio.h] does not include [<bits/stdio-ldbl.h>], the entry
    point the identifier is bound to is, when the header declares it under
    its own name, bound to itself. *)
Theorem no_redirect_chains (c : features) (n s : ident) :
  n ∈ large_file_idents \/ includes_stdio_ldbl c = false ->
  link_symbol c n = Some s ->
  link_symbol c s = None \/ link_symbol c s = Some s.
Proof.
  intros Hcase Hn.
  pose proof (forallb_elem _ _ _ (chain_check_holds c)
                (all_idents_complete n)) as Hchk.
  cbv beta in Hchk. rewrite Hn in Hchk.
  assert (Hguard : negb (existsb (ident_beq n) large_file_idents)
                   && includes_stdio_ldbl c = false).
  { destruct Hcase as [Hl|Hi].
    - rewrite (large_file_idents_test n Hl). reflexivity.
    - rewrite Hi. apply andb_false_r. }
  rewrite Hguard in Hchk. cbn [orb] in Hchk.
  destruct (link_symbol c s) as [s'|]; [|left; reflexivity].
  right. apply ident_beq_eq in Hchk. congruence.
Qed.

Lemma no_redirect_chains_witness :
  link_symbol (mkFeatures true true true true true true true false true
                 true 1 false false) freopen = Some freopen64
  /\ (link_symbol (mkFeatures true true true true true true true false true
                     true 1 false false) freopen64 = None
      \/ link_symbol (mkFeatures true true true true true true true false
                        true true 1 false false) freopen64
         = Some freopen64).
Proof.
  split; [reflexivity|].
  apply (no_redirect_chains
           (mkFeatures true true true true true true true false true true
              1 false false) freopen freopen64).
  - left. unfold large_file_idents. rewrite !elem_of_cons. tauto.
  - reflexivity.
Defined.

End StdioHeaderFacts.
